(** * CybertrendsAI: the filter engine, the two AI service calls and the
      view coordinator of [App.tsx] and [services/aiService.ts].

    The development is a shallow embedding.  Pure code ([useMemo] bodies,
    toggles) becomes functions; the React state of [App] becomes a record
    that the handlers transform; [Math.random] becomes the one operation of
    a small free monad, so that the same definition can be run on a given
    sequence of draws and weighed as a probability distribution, with
    every draw uniform on the unit interval.  What the platform does and
    the sources do not show ([Array.prototype.sort], [JSON.stringify],
    [Date], [useMemo]) is modelled after the engine the application runs
    on, and said so where it is defined.

    Strings are sequences of code units.  The model keeps the code units
    below 256 (Latin-1); [toLowerCase] and [trim] are the platform
    functions restricted to that range. *)

From Stdlib Require Import QArith Qround Lqa.
From Stdlib Require Import Ascii.
From stdpp Require Import base list strings sorting pretty.

Local Open Scope string_scope.
Local Open Scope list_scope.

(** ** Platform strings *)

Module JsString.

Definition code (c : ascii) : N := N_of_ascii c.

(** [String.prototype.toLowerCase] on one Latin-1 code unit: the letters
    A-Z and the accented capitals U+00C0-U+00DE (the multiplication sign
    U+00D7 apart) move 32 up, everything else stays. *)
Definition lowerChar (c : ascii) : ascii :=
  let n := code c in
  if ((65 <=? n) && (n <=? 90) || (192 <=? n) && (n <=? 222) && negb (n =? 215))%N
  then ascii_of_N (n + 32) else c.

Fixpoint toLowerCase (s : string) : string :=
  match s with
  | EmptyString => EmptyString
  | String c s' => String (lowerChar c) (toLowerCase s')
  end.

(** White space and line terminators of the platform, below 256:
    TAB, LF, VT, FF, CR, SP and NBSP. *)
Definition isWhiteSpace (c : ascii) : bool :=
  let n := code c in
  ((9 <=? n) && (n <=? 13) || (n =? 32) || (n =? 160))%N.

Fixpoint trimStart (s : string) : string :=
  match s with
  | EmptyString => EmptyString
  | String c s' => if isWhiteSpace c then trimStart s' else s
  end.

(** [trimEnd] keeps a character when it is not white space or when
    something remains after it. *)
Fixpoint trimEnd (s : string) : string :=
  match s with
  | EmptyString => EmptyString
  | String c s' =>
      match trimEnd s' with
      | EmptyString => if isWhiteSpace c then EmptyString else String c EmptyString
      | t => String c t
      end
  end.

Definition trim (s : string) : string := trimEnd (trimStart s).

Fixpoint allWhiteSpace (s : string) : bool :=
  match s with
  | EmptyString => true
  | String c s' => isWhiteSpace c && allWhiteSpace s'
  end.

Fixpoint startsWith (s t : string) {struct t} : bool :=
  match t, s with
  | EmptyString, _ => true
  | String _ _, EmptyString => false
  | String b t', String a s' => Ascii.eqb a b && startsWith s' t'
  end.

(** [s.includes(t)]: [t] occurs in [s] as a run of consecutive code
    units. *)
Fixpoint includes (s t : string) : bool :=
  startsWith s t ||
  match s with
  | EmptyString => false
  | String _ s' => includes s' t
  end.

(** JavaScript truthiness of a string. *)
Definition truthy (s : string) : bool := negb (String.eqb s "").

Definition isSubstring (t s : string) : Prop :=
  exists a b, s = a +:+ t +:+ b.

End JsString.

Import JsString.

(** [Array.prototype.includes] on an array of strings. *)
Definition Array_includes (l : list string) (x : string) : bool :=
  existsb (String.eqb x) l.

(** ** Data model *)

(** Modelled from the spec: the declaration of [TrendData] ([types.ts]) is
    not among the sources.  The fields are those of the spec's StatRecord
    under the names the code reads them by, each a string. *)
Record TrendData : Type := mkTrendData {
  Date : string;
  Company : string;
  Topic : string;
  Technology : string;
  Source : string;
  stat : string;
  ResourceName : string
}.

#[global] Instance TrendData_eq_dec : EqDecision TrendData.
Proof. solve_decision. Defined.

(** ** Filter engine ([App.tsx], [filteredData]) *)

Definition filterPredicate
    (selectedTopics selectedCompanies selectedDates : list string)
    (searchTerm : string) (item : TrendData) : bool :=
  let topicMatch := (length selectedTopics =? 0)%nat || Array_includes selectedTopics (Topic item) in
  let companyMatch := (length selectedCompanies =? 0)%nat || Array_includes selectedCompanies (Company item) in
  let dateMatch := (length selectedDates =? 0)%nat || Array_includes selectedDates (Date item) in
  let searchLower := toLowerCase searchTerm in
  let termMatch :=
    String.eqb searchTerm "" ||
    includes (toLowerCase (stat item)) searchLower ||
    includes (toLowerCase (ResourceName item)) searchLower ||
    includes (toLowerCase (Company item)) searchLower ||
    includes (toLowerCase (Topic item)) searchLower ||
    includes (toLowerCase (Technology item)) searchLower in
  topicMatch && companyMatch && dateMatch && termMatch.

Definition filteredData (allData : list TrendData)
    (selectedTopics selectedCompanies selectedDates : list string)
    (searchTerm : string) : list TrendData :=
  List.filter
    (filterPredicate selectedTopics selectedCompanies selectedDates searchTerm)
    allData.

(** The predicates of the specification. *)
Definition facetPasses (selection : list string) (value : string) : Prop :=
  selection = [] \/ value ∈ selection.

Definition termPasses (term : string) (r : TrendData) : Prop :=
  term = "" \/
  exists field,
    field ∈ [stat r; ResourceName r; Company r; Topic r; Technology r] /\
    isSubstring (toLowerCase term) (toLowerCase field).

Definition passesAll (topics companies dates : list string) (term : string)
    (r : TrendData) : Prop :=
  facetPasses topics (Topic r) /\ facetPasses companies (Company r) /\
  facetPasses dates (Date r) /\ termPasses term r.

(** ** [Math.random] as an effect *)

(** A computation that may call [Math.random]: either it has returned, or
    it asks for a draw and goes on with it.  A draw is the number that
    [Math.random] answers, [0 <= d < 1]; a double is a rational. *)
Inductive rtree (A : Type) : Type :=
| Ret (a : A)
| Random (k : Q -> rtree A).

Arguments Ret {A} a.
Arguments Random {A} k.

Fixpoint rbind {A B : Type} (t : rtree A) (f : A -> rtree B) : rtree B :=
  match t with
  | Ret a => f a
  | Random k => Random (fun d => rbind (k d) f)
  end.

Definition Math_random : rtree Q := Random (fun d => Ret d).

(** Running a computation on a given sequence of draws. *)
Fixpoint run {A : Type} (t : rtree A) (draws : nat -> Q) : A :=
  match t with
  | Ret a => a
  | Random k => run (k (draws 0%nat)) (fun i => draws (S i))
  end.

(** A property of every possible outcome. *)
Fixpoint always {A : Type} (P : A -> Prop) (t : rtree A) : Prop :=
  match t with
  | Ret a => P a
  | Random k => forall d, always P (k d)
  end.

(** The probability of an event when the draws are independent and each
    is uniform on the unit interval.  [Pr E t p]: the computation [t] ends
    in [E] with probability [p].  For a computation that starts with a
    draw, the interval is cut into finitely many cells, inside each of
    which the probability of what follows is the same for every draw; a
    cell weighs its length.  The finitely many cut points weigh nothing. *)
Inductive Pr {A : Type} (E : A -> bool) : rtree A -> Q -> Prop :=
| Pr_Ret (a : A) : Pr E (Ret a) (if E a then 1 else 0)%Q
| Pr_Random (k : Q -> rtree A) (p : Q) :
    PrOn E k 0 1 p -> Pr E (Random k) p
with PrOn {A : Type} (E : A -> bool)
    : (Q -> rtree A) -> Q -> Q -> Q -> Prop :=
| PrOn_cell (k : Q -> rtree A) (lo hi q : Q) :
    (lo < hi)%Q ->
    (forall d, (lo < d)%Q -> (d < hi)%Q -> Pr E (k d) q) ->
    PrOn E k lo hi ((hi - lo) * q)%Q
| PrOn_cut (k : Q -> rtree A) (lo mid hi p1 p2 : Q) :
    (lo < mid)%Q -> (mid < hi)%Q ->
    PrOn E k lo mid p1 -> PrOn E k mid hi p2 ->
    PrOn E k lo hi (p1 + p2)%Q.

(** ** [Array.prototype.sort] *)

(** What the engine reads off a comparator's result: its sign, or NaN,
    which it treats as zero. *)
Inductive Sign : Type := Negative | Zero | Positive | NaN.

Definition signZ (z : Z) : Sign :=
  match z with
  | Z0 => Zero
  | Zpos _ => Positive
  | Zneg _ => Negative
  end.

(** The engine's test [order < 0]. *)
Definition isNegative (order : Sign) : bool :=
  match order with
  | Negative => true
  | _ => false
  end.

(** What a sorting algorithm is to its comparator: it has finished with a
    result, or it asks how [a] compares to [b] and goes on with the
    answer. *)
Inductive asking (A R : Type) : Type :=
| Answer (r : R)
| Ask (a b : A) (k : Sign -> asking A R).

Arguments Answer {A R} r.
Arguments Ask {A R} a b k.

Fixpoint abind {A R S : Type} (t : asking A R) (f : R -> asking A S)
    : asking A S :=
  match t with
  | Answer r => f r
  | Ask a b k => Ask a b (fun c => abind (k c) f)
  end.

(** The algorithm run with a comparator that calls [Math.random]. *)
Fixpoint answering {A R : Type} (comparefn : A -> A -> rtree Sign)
    (t : asking A R) : rtree R :=
  match t with
  | Answer r => Ret r
  | Ask a b k => rbind (comparefn a b) (fun c => answering comparefn (k c))
  end.

(** The result when every comparison is answered [c]. *)
Fixpoint answeredBy {A R : Type} (c : Sign) (t : asking A R) : R :=
  match t with
  | Answer r => r
  | Ask _ _ k => answeredBy c (k c)
  end.

(** A property of the result whatever the comparisons answer. *)
Fixpoint everyAnswer {A R : Type} (P : R -> Prop) (t : asking A R) : Prop :=
  match t with
  | Answer r => P r
  | Ask _ _ k => forall c, everyAnswer P (k c)
  end.

Definition insertAt {A : Type} (position : nat) (pivot : A) (sorted : list A)
    : list A :=
  take position sorted ++ pivot :: drop position sorted.

(** The engine's algorithm is not part of the sources.  The model follows
    the engine the application runs on (V8): it reads the run the array
    starts with, calling [comparefn] with the later element first, turns
    the run round when it is strictly descending, and places every
    further element into the sorted part by binary search.  This is how
    that engine sorts an array of fewer than 64 elements, and any array
    that is one run from end to end.  On a longer array of several runs
    the engine cuts the array into runs of 32 to 64 elements and merges
    them, which the model does not follow: there the two agree when the
    comparator is consistent (both return the one stable sorted array),
    and in the elements of the result whatever the comparator answers.
    The comparator may itself have effects, so the algorithm is written
    once over the monad it runs in. *)
Section SortEngine.
Context {M : Type -> Type}.
Variable unit_ : forall T, T -> M T.
Variable bind_ : forall T U, M T -> (T -> M U) -> M U.
Context {A : Type}.
Variable comparefn : A -> A -> M Sign.

(** [run] is the run read so far, last element first; [previous] is its
    last element.  The result is the run and what follows it. *)
Fixpoint extendRun (descending : bool) (run : list A) (previous : A)
    (rest : list A) : M (list A * list A) :=
  match rest with
  | [] => unit_ _ (run, [])
  | current :: rest' =>
      bind_ _ _ (comparefn current previous) (fun order =>
        if Bool.eqb (isNegative order) descending
        then extendRun descending (current :: run) current rest'
        else unit_ _ (run, rest))
  end.

(** The run in ascending order, and the elements after it. *)
Definition countAndMakeRun (l : list A) : M (list A * list A) :=
  match l with
  | first :: second :: rest =>
      bind_ _ _ (comparefn second first) (fun order =>
        let descending := isNegative order in
        bind_ _ _ (extendRun descending [second; first] second rest)
          (fun found =>
             unit_ _ (if descending then fst found else rev (fst found),
                      snd found)))
  | _ => unit_ _ (l, [])
  end.

(** The place of [pivot] among [sorted], looked for between [left] and
    [right].  Every turn shortens the interval, so [fuel] as large as the
    interval is not used up. *)
Fixpoint findPosition (fuel : nat) (sorted : list A) (pivot : A)
    (left right : nat) : M nat :=
  match fuel with
  | O => unit_ _ left
  | S fuel' =>
      if (left <? right)%nat then
        let mid := (left + (right - left) / 2)%nat in
        match sorted !! mid with
        | Some element =>
            bind_ _ _ (comparefn pivot element) (fun order =>
              if isNegative order
              then findPosition fuel' sorted pivot left mid
              else findPosition fuel' sorted pivot (S mid) right)
        | None => unit_ _ left
        end
      else unit_ _ left
  end.

Fixpoint binaryInsertionSort (sorted rest : list A) : M (list A) :=
  match rest with
  | [] => unit_ _ sorted
  | pivot :: rest' =>
      bind_ _ _
        (findPosition (length sorted) sorted pivot 0 (length sorted))
        (fun position =>
           binaryInsertionSort (insertAt position pivot sorted) rest')
  end.

Definition sortWith (l : list A) : M (list A) :=
  bind_ _ _ (countAndMakeRun l) (fun found =>
    binaryInsertionSort (fst found) (snd found)).
End SortEngine.

(** Sorting with a pure comparator. *)
Definition Array_sort {A : Type} (comparefn : A -> A -> Sign) (l : list A)
    : list A :=
  sortWith (M := fun T => T) (fun _ x => x) (fun _ _ x f => f x) comparefn l.

(** The algorithm as the questions it asks. *)
Definition engine {A : Type} (l : list A) : asking A (list A) :=
  sortWith (M := asking A) (@Answer A) (@abind A)
    (fun a b => Ask a b (fun c => Answer c)) l.

(** Sorting with a comparator that calls [Math.random]. *)
Definition Array_sortR {A : Type} (comparefn : A -> A -> rtree Sign)
    (l : list A) : rtree (list A) :=
  answering comparefn (engine l).

(** The default order of [sort()] on strings: by code units. *)
Definition defaultCompare (a b : string) : Sign :=
  match String.compare a b with
  | Lt => Negative
  | Eq => Zero
  | Gt => Positive
  end.

(** ** Facets ([App.tsx], [filterOptions]) *)

(** A [Set] of strings keeps its members in insertion order. *)
Definition Set_add (s : list string) (x : string) : list string :=
  if Array_includes s x then s else s ++ [x].

Record FilterOptions : Type := mkFilterOptions {
  topics : list string;
  companies : list string;
  dates : list string
}.

Section Facets.
(** [new Date(s).getTime()]: the time value in milliseconds, or [None]
    for NaN (an Invalid Date).  Parsing is the platform's. *)
Variable getTime : string -> option Z.

Definition dateCompare (a b : string) : Sign :=
  match getTime b, getTime a with
  | Some tb, Some ta => signZ (tb - ta)
  | _, _ => NaN
  end.

Definition collectFacets (allData : list TrendData)
    : list string * list string * list string :=
  fold_left
    (fun '(topics, companies, dates) item =>
       (if truthy (Topic item) then Set_add topics (Topic item) else topics,
        if truthy (Company item) then Set_add companies (Company item) else companies,
        if truthy (Date item) then Set_add dates (Date item) else dates))
    allData ([], [], []).

Definition filterOptions (allData : list TrendData) : FilterOptions :=
  let '(topics, companies, dates) := collectFacets allData in
  {| topics := Array_sort defaultCompare topics;
     companies := Array_sort defaultCompare companies;
     dates := Array_sort dateCompare dates |}.
End Facets.

(** *** A concrete reading of dates, for running the code

    The date-only form [YYYY-MM-DD] of the Date Time String Format, read as
    UTC midnight, as the engine reads it: the month is 1 to 12 and the day
    1 to 31 or the date is invalid (NaN), and a day that the month does
    not have counts on into the next month.  Other shapes are left to the
    engine; [isoGetTime] does not cover them and answers [None]. *)
Module IsoDate.

Definition digit (c : ascii) : option Z :=
  let n := code c in
  if ((48 <=? n) && (n <=? 57))%N then Some (Z.of_N n - 48)%Z else None.

Definition number2 (a b : ascii) : option Z :=
  match digit a, digit b with
  | Some x, Some y => Some (10 * x + y)%Z
  | _, _ => None
  end.

Definition number4 (a b c d : ascii) : option Z :=
  match number2 a b, number2 c d with
  | Some x, Some y => Some (100 * x + y)%Z
  | _, _ => None
  end.

(** Days from 1970-01-01 to the given civil date. *)
Definition daysFromCivil (y m d : Z) : Z :=
  let y' := (if m <=? 2 then y - 1 else y)%Z in
  let era := (y' / 400)%Z in
  let yoe := (y' - era * 400)%Z in
  let mp := ((m + 9) mod 12)%Z in
  let doy := ((153 * mp + 2) / 5 + d - 1)%Z in
  let doe := (yoe * 365 + yoe / 4 - yoe / 100 + doy)%Z in
  (era * 146097 + doe - 719468)%Z.

Definition msPerDay : Z := 86400000.

Definition isoGetTime (s : string) : option Z :=
  match s with
  | String y1 (String y2 (String y3 (String y4 (String "-"
      (String m1 (String m2 (String "-"
        (String d1 (String d2 EmptyString))))))))) =>
      match number4 y1 y2 y3 y4, number2 m1 m2, number2 d1 d2 with
      | Some y, Some m, Some d =>
          if ((1 <=? m) && (m <=? 12) && (1 <=? d) && (d <=? 31))%Z
          then Some (daysFromCivil y m d * msPerDay)%Z
          else None
      | _, _, _ => None
      end
  | _ => None
  end.

End IsoDate.

(** The dates of a facet list whose time value is known come latest
    first. *)
Definition datesDescending (getTime : string -> option Z) (l : list string)
    : Prop :=
  forall i j a b ta tb,
    (i < j)%nat -> l !! i = Some a -> l !! j = Some b ->
    getTime a = Some ta -> getTime b = Some tb -> (tb <= ta)%Z.

(** [a] is not earlier than [b], both read. *)
Definition laterOrSame (getTime : string -> option Z) (a b : string) : Prop :=
  exists ta tb, getTime a = Some ta /\ getTime b = Some tb /\ (tb <= ta)%Z.

(** One facet at a time: the members that [collectFacets] gathers for the
    field [f], starting from [acc]. *)
Definition collectField (f : TrendData -> string) (allData : list TrendData)
    (acc : list string) : list string :=
  fold_left (fun s item => if truthy (f item) then Set_add s (f item) else s)
    allData acc.

(** A dataset to run the code on. *)
Definition phishingRecord : TrendData :=
  {| Date := "2024-01-01"; Company := "Acme"; Topic := "Phishing";
     Technology := "Email"; Source := "http://x";
     stat := "60% of breaches involve phishing"; ResourceName := "Report A" |}.

Definition datedRecord (d : string) : TrendData :=
  {| Date := d; Company := "Acme"; Topic := "Phishing"; Technology := "Email";
     Source := ""; stat := "a stat"; ResourceName := "Report A" |}.

Definition mixedDates : list TrendData :=
  [datedRecord "2020-01-01"; datedRecord "2024-13-01"; datedRecord "2024-01-01"].

Definition readableDates : list TrendData :=
  [datedRecord "2020-01-01"; datedRecord "2024-01-01"; datedRecord "2022-06-15";
   datedRecord "2024-01-01"; datedRecord ""].

(** ** JSON values *)

Set Warnings "-register-all".

(** The values that [JSON.parse] returns and that [JSON.stringify]
    writes.  A number is kept by its value; a literal too large for a
    double (1e999) is parsed to an infinity, which is no JSON text and is
    written as [null]. *)
Inductive JSON : Type :=
| JNull
| JBool (b : bool)
| JNumber (value : Q)
| JInfinity (negative : bool)
| JString (s : string)
| JArray (items : list JSON)
| JObject (members : list (string * JSON)).

Definition isArray (v : JSON) : bool :=
  match v with
  | JArray _ => true
  | _ => false
  end.

(** The value that [JSON.stringify(v, (key, value) => key === 'reason' ?
    undefined : value, 2)] writes out: the replacer is asked about every
    member of every object, and a member for which it answers [undefined]
    is left out.  The elements of an array are asked about under their
    index, which is never ['reason'].  A number that is not finite is
    written as [null]. *)
Fixpoint withoutReason (v : JSON) : JSON :=
  match v with
  | JInfinity _ => JNull
  | JArray items => JArray (List.map withoutReason items)
  | JObject members =>
      JObject
        ((fix go (ms : list (string * JSON)) : list (string * JSON) :=
            match ms with
            | [] => []
            | (key, value) :: ms' =>
                if String.eqb key "reason" then go ms'
                else (key, withoutReason value) :: go ms'
            end) members)
  | _ => v
  end.

(** Some object inside [v], at any depth, has a member named [key]. *)
Fixpoint hasMember (key : string) (v : JSON) : bool :=
  match v with
  | JArray items => existsb (hasMember key) items
  | JObject members =>
      existsb (fun m => String.eqb (fst m) key || hasMember key (snd m)) members
  | _ => false
  end.

(** Every number in [v], at any depth, is finite. *)
Fixpoint allFinite (v : JSON) : bool :=
  match v with
  | JInfinity _ => false
  | JArray items => forallb allFinite items
  | JObject members => forallb (fun m => allFinite (snd m)) members
  | _ => true
  end.

(** What the summary prompt is to hold of a value, said without the
    replacer: [written v w] when [w] is [v] less the members named
    [reason] of its objects, at any depth, with every other member in its
    place and every element of every array in its place, and with [null]
    for a number that is not finite. *)
Inductive membersWritten (R : JSON -> JSON -> Prop)
    : list (string * JSON) -> list (string * JSON) -> Prop :=
| membersWritten_nil : membersWritten R [] []
| membersWritten_skip (value : JSON) (members members' : list (string * JSON)) :
    membersWritten R members members' ->
    membersWritten R (("reason", value) :: members) members'
| membersWritten_keep (key : string) (value value' : JSON)
    (members members' : list (string * JSON)) :
    key <> "reason" -> R value value' ->
    membersWritten R members members' ->
    membersWritten R ((key, value) :: members) ((key, value') :: members').

Inductive written : JSON -> JSON -> Prop :=
| written_null : written JNull JNull
| written_bool (b : bool) : written (JBool b) (JBool b)
| written_number (n : Q) : written (JNumber n) (JNumber n)
| written_infinity (negative : bool) : written (JInfinity negative) JNull
| written_string (s : string) : written (JString s) (JString s)
| written_array (items items' : list JSON) :
    Forall2 written items items' -> written (JArray items) (JArray items')
| written_object (members members' : list (string * JSON)) :
    membersWritten written members members' ->
    written (JObject members) (JObject members').

(** A record as a JSON object. *)
Definition recordJson (r : TrendData) : JSON :=
  JObject [("Date", JString (Date r)); ("Company", JString (Company r));
           ("Topic", JString (Topic r)); ("Technology", JString (Technology r));
           ("Source", JString (Source r)); ("stat", JString (stat r));
           ("ResourceName", JString (ResourceName r))].

(** An AI result as the model returns it: the fields of a record and the
    reason. *)
Definition aiResult (r : TrendData) (reason : string) : JSON :=
  JObject [("Date", JString (Date r)); ("Company", JString (Company r));
           ("Topic", JString (Topic r)); ("Technology", JString (Technology r));
           ("Source", JString (Source r)); ("stat", JString (stat r));
           ("ResourceName", JString (ResourceName r));
           ("reason", JString reason)].

(** ** The AI service ([services/aiService.ts]) *)

(** What the prompt carries besides its fixed text. *)
Inductive Prompt : Type :=
| SearchPrompt (userQuery : string) (availableData : list TrendData)
| SummaryPrompt (data : JSON).

Record Request : Type := mkRequest {
  model : string;
  contents : Prompt;
  structuredResponse : bool
}.

(** The awaited [generateContent] promise: rejected, or fulfilled with a
    response of which the code reads [text].  The client library types
    [text] as [string | undefined]: a response may carry no text, and
    [response.text.trim()] then throws inside the [try]. *)
Inductive Response : Type :=
| Rejected
| Fulfilled (text : string)
| FulfilledWithoutText.

(** How an async function of the service ends. *)
Inductive Outcome (A : Type) : Type :=
| Returned (a : A)
| Thrown (message : string).

Arguments Returned {A} a.
Arguments Thrown {A} message.

(** The sign of [0.5 - Math.random()] for the draw [d]. *)
Definition halfMinus (d : Q) : Sign :=
  match (d ?= 1 # 2)%Q with
  | Lt => Positive
  | Eq => Zero
  | Gt => Negative
  end.

Definition randomCompare {A : Type} (_ _ : A) : rtree Sign :=
  rbind Math_random (fun d => Ret (halfMinus d)).

(** [data.length > 200 ? data.sort(...).slice(0, 200) : data].  [sort]
    works in place: the first component is the array [data] as the call
    leaves it, the second is [dataSubset]. *)
Definition selectSubset (data : list TrendData)
    : rtree (list TrendData * list TrendData) :=
  if (200 <? length data)%nat
  then rbind (Array_sortR randomCompare data)
         (fun sorted => Ret (sorted, take 200 sorted))
  else Ret (data, data).

Definition searchFailure : string :=
  "Failed to get a response from the AI. Please try again.".

Definition summaryFailure : string :=
  "Failed to generate AI summary. The model may be temporarily unavailable.".

Definition noDataSummary : string :=
  "No data available to generate a summary.".

Section AiService.
(** [JSON.parse]; [None] when it throws. *)
Variable JSON_parse : string -> option JSON.

(** [findRelevantStats] up to the call of the model: the array [data]
    after it, and the request. *)
Definition findRelevantStats_request (userQuery : string)
    (data : list TrendData) : rtree (list TrendData * Request) :=
  rbind (selectSubset data) (fun '(data', dataSubset) =>
    Ret (data',
         {| model := "gemini-2.5-flash";
            contents := SearchPrompt userQuery dataSubset;
            structuredResponse := true |})).

(** [findRelevantStats] from the answer on. *)
Definition findRelevantStats_response (response : Response)
    : Outcome (list JSON) :=
  match response with
  | Rejected => Thrown searchFailure
  | FulfilledWithoutText => Thrown searchFailure
  | Fulfilled text =>
      let jsonText := trim text in
      if negb (truthy jsonText) then Returned []
      else
        match JSON_parse jsonText with
        | None => Thrown searchFailure
        | Some results =>
            if negb (isArray results) then Returned []
            else
              match results with
              | JArray items => Returned items
              | _ => Returned []
              end
        end
  end.

(** The whole call against a model [generateContent]: the array [data]
    after the call, the requests sent, and how the call ends. *)
Definition findRelevantStats (generateContent : Request -> Response)
    (userQuery : string) (data : list TrendData)
    : rtree (list TrendData * list Request * Outcome (list JSON)) :=
  rbind (findRelevantStats_request userQuery data) (fun '(data', request) =>
    Ret (data', [request],
         findRelevantStats_response (generateContent request))).
End AiService.

(** [generateSummary] up to the call of the model; [None] when it returns
    before any call. *)
Definition generateSummary_request (data : list JSON) : option Request :=
  if (length data =? 0)%nat then None
  else
    let dataSubset := if (50 <? length data)%nat then take 50 data else data in
    Some {| model := "gemini-2.5-flash";
            contents := SummaryPrompt (withoutReason (JArray dataSubset));
            structuredResponse := false |}.

Definition generateSummary_response (response : Response) : Outcome string :=
  match response with
  | Rejected => Thrown summaryFailure
  | FulfilledWithoutText => Thrown summaryFailure
  | Fulfilled text => Returned (trim text)
  end.

Definition generateSummary (generateContent : Request -> Response)
    (data : list JSON) : list Request * Outcome string :=
  match generateSummary_request data with
  | None => ([], Returned noDataSummary)
  | Some request =>
      ([request], generateSummary_response (generateContent request))
  end.

(** ** The view coordinator ([App.tsx]) *)

(** The record shown in the detail overlay: one of the dataset, or an AI
    result with its reason. *)
Inductive Stat : Type :=
| DatasetStat (r : TrendData)
| AiStat (r : JSON).

(** The state of [App], one field per [useState]. *)
Record AppState : Type := mkAppState {
  allData : list TrendData;
  isDataLoading : bool;
  dataError : option string;
  searchQuery : string;
  aiResults : list JSON;
  isSearching : bool;
  aiError : option string;
  summary : option string;
  isSummarizing : bool;
  summaryError : option string;
  selectedTopics : list string;
  selectedCompanies : list string;
  selectedDates : list string;
  searchTerm : string;
  selectedStat : option Stat
}.

Definition initialState : AppState :=
  {| allData := []; isDataLoading := true; dataError := None;
     searchQuery := ""; aiResults := []; isSearching := false; aiError := None;
     summary := None; isSummarizing := false; summaryError := None;
     selectedTopics := []; selectedCompanies := []; selectedDates := [];
     searchTerm := ""; selectedStat := None |}.

(** The setters. *)
Definition setAllData (v : list TrendData) (s : AppState) : AppState :=
  mkAppState v (isDataLoading s) (dataError s) (searchQuery s) (aiResults s)
    (isSearching s) (aiError s) (summary s) (isSummarizing s) (summaryError s)
    (selectedTopics s) (selectedCompanies s) (selectedDates s) (searchTerm s)
    (selectedStat s).
Definition setIsDataLoading (v : bool) (s : AppState) : AppState :=
  mkAppState (allData s) v (dataError s) (searchQuery s) (aiResults s)
    (isSearching s) (aiError s) (summary s) (isSummarizing s) (summaryError s)
    (selectedTopics s) (selectedCompanies s) (selectedDates s) (searchTerm s)
    (selectedStat s).
Definition setDataError (v : option string) (s : AppState) : AppState :=
  mkAppState (allData s) (isDataLoading s) v (searchQuery s) (aiResults s)
    (isSearching s) (aiError s) (summary s) (isSummarizing s) (summaryError s)
    (selectedTopics s) (selectedCompanies s) (selectedDates s) (searchTerm s)
    (selectedStat s).
Definition setSearchQuery (v : string) (s : AppState) : AppState :=
  mkAppState (allData s) (isDataLoading s) (dataError s) v (aiResults s)
    (isSearching s) (aiError s) (summary s) (isSummarizing s) (summaryError s)
    (selectedTopics s) (selectedCompanies s) (selectedDates s) (searchTerm s)
    (selectedStat s).
Definition setAiResults (v : list JSON) (s : AppState) : AppState :=
  mkAppState (allData s) (isDataLoading s) (dataError s) (searchQuery s) v
    (isSearching s) (aiError s) (summary s) (isSummarizing s) (summaryError s)
    (selectedTopics s) (selectedCompanies s) (selectedDates s) (searchTerm s)
    (selectedStat s).
Definition setIsSearching (v : bool) (s : AppState) : AppState :=
  mkAppState (allData s) (isDataLoading s) (dataError s) (searchQuery s)
    (aiResults s) v (aiError s) (summary s) (isSummarizing s) (summaryError s)
    (selectedTopics s) (selectedCompanies s) (selectedDates s) (searchTerm s)
    (selectedStat s).
Definition setAiError (v : option string) (s : AppState) : AppState :=
  mkAppState (allData s) (isDataLoading s) (dataError s) (searchQuery s)
    (aiResults s) (isSearching s) v (summary s) (isSummarizing s)
    (summaryError s) (selectedTopics s) (selectedCompanies s) (selectedDates s)
    (searchTerm s) (selectedStat s).
Definition setSummary (v : option string) (s : AppState) : AppState :=
  mkAppState (allData s) (isDataLoading s) (dataError s) (searchQuery s)
    (aiResults s) (isSearching s) (aiError s) v (isSummarizing s)
    (summaryError s) (selectedTopics s) (selectedCompanies s) (selectedDates s)
    (searchTerm s) (selectedStat s).
Definition setIsSummarizing (v : bool) (s : AppState) : AppState :=
  mkAppState (allData s) (isDataLoading s) (dataError s) (searchQuery s)
    (aiResults s) (isSearching s) (aiError s) (summary s) v (summaryError s)
    (selectedTopics s) (selectedCompanies s) (selectedDates s) (searchTerm s)
    (selectedStat s).
Definition setSummaryError (v : option string) (s : AppState) : AppState :=
  mkAppState (allData s) (isDataLoading s) (dataError s) (searchQuery s)
    (aiResults s) (isSearching s) (aiError s) (summary s) (isSummarizing s) v
    (selectedTopics s) (selectedCompanies s) (selectedDates s) (searchTerm s)
    (selectedStat s).
Definition setSelectedTopics (v : list string) (s : AppState) : AppState :=
  mkAppState (allData s) (isDataLoading s) (dataError s) (searchQuery s)
    (aiResults s) (isSearching s) (aiError s) (summary s) (isSummarizing s)
    (summaryError s) v (selectedCompanies s) (selectedDates s) (searchTerm s)
    (selectedStat s).
Definition setSelectedCompanies (v : list string) (s : AppState) : AppState :=
  mkAppState (allData s) (isDataLoading s) (dataError s) (searchQuery s)
    (aiResults s) (isSearching s) (aiError s) (summary s) (isSummarizing s)
    (summaryError s) (selectedTopics s) v (selectedDates s) (searchTerm s)
    (selectedStat s).
Definition setSelectedDates (v : list string) (s : AppState) : AppState :=
  mkAppState (allData s) (isDataLoading s) (dataError s) (searchQuery s)
    (aiResults s) (isSearching s) (aiError s) (summary s) (isSummarizing s)
    (summaryError s) (selectedTopics s) (selectedCompanies s) v (searchTerm s)
    (selectedStat s).
Definition setSearchTerm (v : string) (s : AppState) : AppState :=
  mkAppState (allData s) (isDataLoading s) (dataError s) (searchQuery s)
    (aiResults s) (isSearching s) (aiError s) (summary s) (isSummarizing s)
    (summaryError s) (selectedTopics s) (selectedCompanies s) (selectedDates s)
    v (selectedStat s).
Definition setSelectedStat (v : option Stat) (s : AppState) : AppState :=
  mkAppState (allData s) (isDataLoading s) (dataError s) (searchQuery s)
    (aiResults s) (isSearching s) (aiError s) (summary s) (isSummarizing s)
    (summaryError s) (selectedTopics s) (selectedCompanies s) (selectedDates s)
    (searchTerm s) v.

(** [sort] changes the array that [allData] refers to without going
    through a setter: the state then holds the array as the call left
    it. *)
Definition allDataSortedInPlace (v : list TrendData) (s : AppState) : AppState :=
  setAllData v s.

Definition toggle (value : string) (prev : list string) : list string :=
  if Array_includes prev value
  then List.filter (fun t => negb (String.eqb t value)) prev
  else prev ++ [value].

Definition optionTruthy (o : option string) : bool :=
  match o with
  | Some m => truthy m
  | None => false
  end.

Definition dataLoadFailure : string :=
  "Failed to load the cybersecurity data trends. The AI assistant needs this data to function.".

Definition unknownSearchFailure : string :=
  "An unknown error occurred during the AI search.".

Inductive View : Type :=
| Loading | DataError | Browse | AISearching | AIError | AIResults.

(** What [App] renders. *)
Definition activeView (s : AppState) : View :=
  if isDataLoading s then Loading
  else if optionTruthy (dataError s) then DataError
  else if isSearching s then AISearching
  else if optionTruthy (aiError s) then AIError
  else if (0 <? length (aiResults s))%nat then AIResults
  else Browse.

(** The overlay is rendered when [selectedStat] is set. *)
Definition detailOpen (s : AppState) : bool :=
  match selectedStat s with
  | Some _ => true
  | None => false
  end.

Section Coordinator.
Variable JSON_parse : string -> option JSON.

Definition loadData_begin (s : AppState) : AppState :=
  setIsDataLoading true s.

Definition loadData_settle (fetched : option (list TrendData)) (s : AppState)
    : AppState :=
  setIsDataLoading false
    match fetched with
    | Some data => setDataError None (setAllData data s)
    | None => setDataError (Some dataLoadFailure) s
    end.

Definition handleClearSummary (s : AppState) : AppState :=
  setSummaryError None (setSummary None s).

(** [handleAiSearch] up to its [await]: the new state and the requests
    sent to the model. *)
Definition handleAiSearch_begin (s : AppState)
    : rtree (AppState * list Request) :=
  if negb (truthy (trim (searchQuery s))) || isSearching s then Ret (s, [])
  else
    let s1 :=
      handleClearSummary
        (setSelectedStat None
           (setAiResults [] (setAiError None (setIsSearching true s)))) in
    rbind (findRelevantStats_request (searchQuery s) (allData s))
      (fun '(data', request) =>
         Ret (allDataSortedInPlace data' s1, [request])).

(** [handleAiSearch] once the model has answered. *)
Definition handleAiSearch_settle (response : Response) (s : AppState)
    : AppState :=
  setIsSearching false
    match findRelevantStats_response JSON_parse response with
    | Returned results => setAiResults results s
    | Thrown message =>
        setAiError
          (Some (if truthy message then message else unknownSearchFailure)) s
    end.

Definition handleClearAiSearch (s : AppState) : AppState :=
  handleClearSummary (setSearchQuery "" (setAiError None (setAiResults [] s))).

Definition handleStatSelect (stat : Stat) (s : AppState) : AppState :=
  setSelectedStat (Some stat) s.

Definition handleCloseModal (s : AppState) : AppState :=
  setSelectedStat None s.

Definition handleTopicToggle (topic : string) (s : AppState) : AppState :=
  setSelectedTopics (toggle topic (selectedTopics s)) s.

Definition handleCompanyToggle (company : string) (s : AppState) : AppState :=
  setSelectedCompanies (toggle company (selectedCompanies s)) s.

Definition handleDateToggle (date : string) (s : AppState) : AppState :=
  setSelectedDates (toggle date (selectedDates s)) s.

Definition handleResetFilters (s : AppState) : AppState :=
  handleClearSummary
    (setSearchTerm ""
       (setSelectedDates [] (setSelectedCompanies [] (setSelectedTopics [] s)))).

(** [handleGenerateSummary] up to its [await].  When [generateSummary]
    returns without a call, its text is the summary at once. *)
Definition handleGenerateSummary_begin (s : AppState)
    : AppState * list Request :=
  if (length (aiResults s) =? 0)%nat then (s, [])
  else
    let s1 := setSummaryError None (setSummary None (setIsSummarizing true s)) in
    match generateSummary_request (aiResults s) with
    | Some request => (s1, [request])
    | None => (setIsSummarizing false (setSummary (Some noDataSummary) s1), [])
    end.

Definition handleGenerateSummary_settle (response : Response) (s : AppState)
    : AppState :=
  setIsSummarizing false
    match generateSummary_response response with
    | Returned result => setSummary (Some result) s
    | Thrown message => setSummaryError (Some message) s
    end.

(** What can happen to [App]: the user's actions and the answers of the
    pending calls.  [CloseModal] stands for the close button, a click on
    the backdrop and the Escape key, which all call [onClose]. *)
Inductive Event : Type :=
| DataSettled (fetched : option (list TrendData))
| SearchQueryChange (value : string)
| SearchTermChange (value : string)
| AiSearch
| AiSearchSettled (response : Response)
| ClearAiSearch
| StatSelect (stat : Stat)
| CloseModal
| TopicToggle (topic : string)
| CompanyToggle (company : string)
| DateToggle (date : string)
| ResetFilters
| GenerateSummary
| SummarySettled (response : Response)
| ClearSummary.

Definition step (s : AppState) (e : Event) : rtree (AppState * list Request) :=
  match e with
  | DataSettled fetched => Ret (loadData_settle fetched s, [])
  | SearchQueryChange value => Ret (setSearchQuery value s, [])
  | SearchTermChange value => Ret (setSearchTerm value s, [])
  | AiSearch => handleAiSearch_begin s
  | AiSearchSettled response => Ret (handleAiSearch_settle response s, [])
  | ClearAiSearch => Ret (handleClearAiSearch s, [])
  | StatSelect stat => Ret (handleStatSelect stat s, [])
  | CloseModal => Ret (handleCloseModal s, [])
  | TopicToggle topic => Ret (handleTopicToggle topic s, [])
  | CompanyToggle company => Ret (handleCompanyToggle company s, [])
  | DateToggle date => Ret (handleDateToggle date s, [])
  | ResetFilters => Ret (handleResetFilters s, [])
  | GenerateSummary => Ret (handleGenerateSummary_begin s)
  | SummarySettled response => Ret (handleGenerateSummary_settle response s, [])
  | ClearSummary => Ret (handleClearSummary s, [])
  end.
End Coordinator.

(** Induction on a JSON value that reaches the values inside arrays and
    objects. *)
Fixpoint JSON_deep_ind (P : JSON -> Prop)
    (Hnull : P JNull) (Hbool : forall b, P (JBool b))
    (Hnumber : forall n, P (JNumber n))
    (Hinfinity : forall negative, P (JInfinity negative))
    (Hstring : forall s, P (JString s))
    (Harray : forall items, Forall P items -> P (JArray items))
    (Hobject : forall members,
        Forall (fun m => P (snd m)) members -> P (JObject members))
    (v : JSON) {struct v} : P v :=
  match v with
  | JNull => Hnull
  | JBool b => Hbool b
  | JNumber n => Hnumber n
  | JInfinity negative => Hinfinity negative
  | JString s => Hstring s
  | JArray items =>
      Harray items
        ((fix go (l : list JSON) : Forall P l :=
            match l with
            | [] => @List.Forall_nil _ P
            | x :: l' =>
                @List.Forall_cons _ P x l'
                  (JSON_deep_ind P Hnull Hbool Hnumber Hinfinity Hstring Harray
                     Hobject x)
                  (go l')
            end) items)
  | JObject members =>
      Hobject members
        ((fix go (l : list (string * JSON)) : Forall (fun m => P (snd m)) l :=
            match l with
            | [] => @List.Forall_nil _ _
            | m :: l' =>
                @List.Forall_cons _ (fun m => P (snd m)) m l'
                  (JSON_deep_ind P Hnull Hbool Hnumber Hinfinity Hstring Harray
                     Hobject (snd m))
                  (go l')
            end) members)
  end.

(** States and values to run the coordinator on. *)
Definition browseState : AppState :=
  setIsDataLoading false (setAllData [phishingRecord] initialState).

Definition detailState : AppState :=
  setSelectedStat (Some (DatasetStat phishingRecord))
    (setSearchQuery "phishing trends" browseState).

Definition blankQueryState : AppState :=
  setSearchQuery "  " browseState.

Definition noParser (_ : string) : option JSON := None.

(** A parser that never throws. *)
Definition arrayParser (_ : string) : option JSON := Some (JArray []).

(** The request of a search for [userQuery] that carries [sample]. *)
Definition searchRequest (userQuery : string) (sample : list TrendData)
    : Request :=
  {| model := "gemini-2.5-flash";
     contents := SearchPrompt userQuery sample;
     structuredResponse := true |}.

(** The request of a summary that carries [payload]. *)
Definition summaryRequest (payload : JSON) : Request :=
  {| model := "gemini-2.5-flash";
     contents := SummaryPrompt payload;
     structuredResponse := false |}.


(** *** The sample that is sent *)

Definition sampleOf (request : Request) : list TrendData :=
  match contents request with
  | SearchPrompt _ availableData => availableData
  | SummaryPrompt _ => []
  end.

Definition sentSample (userQuery : string) (data : list TrendData)
    : rtree (list TrendData) :=
  rbind (findRelevantStats_request userQuery data)
    (fun '(_, request) => Ret (sampleOf request)).

Definition inSample (x : TrendData) (sample : list TrendData) : bool :=
  bool_decide (x ∈ sample).

(** A uniformly random sample of 200 records, drawn without replacement
    from a corpus of [n] different records, holds each record of the
    corpus with probability [200 / n]. *)
Definition uniformSample (corpus : list TrendData)
    (t : rtree (list TrendData)) : Prop :=
  forall x, x ∈ corpus ->
    exists p, Pr (inSample x) t p /\
              (p == 200 # Pos.of_nat (length corpus))%Q.

(** What is sent of a corpus of more than 200 records when [sort] follows
    the algorithm [algorithm], whichever it is. *)
Definition sampleUnder
    (algorithm : list TrendData -> asking TrendData (list TrendData))
    (data : list TrendData) : rtree (list TrendData) :=
  rbind (answering randomCompare (algorithm data))
    (fun sorted => Ret (take 200 sorted)).

(** A sampler to compare with: one draw picks the record that is left
    out. *)
Definition omit {A : Type} (i : nat) (l : list A) : list A :=
  take i l ++ drop (S i) l.

Definition leaveOneOut (corpus : list TrendData) : rtree (list TrendData) :=
  rbind Math_random (fun d =>
    Ret (omit (Z.to_nat (Qfloor (inject_Z (Z.of_nat (length corpus)) * d)))
           corpus)).

(** The unit interval in 201 cells, and the weight of the first [m] of
    them when cell [i] counts [q i]. *)
Definition bound (i : nat) : Q := (inject_Z (Z.of_nat i) * (1 # 201))%Q.

Fixpoint cellSum (q : nat -> Q) (m : nat) : Q :=
  match m with
  | O => 0
  | S m' =>
      match m' with
      | O => ((bound 1 - 0) * q 0%nat)%Q
      | S _ => (cellSum q m' + (bound (S m') - bound m') * q m')%Q
      end
  end.

(** The chance of an event when every comparison falls either way with
    one half. *)
Fixpoint halves {A R : Type} (E : R -> bool) (t : asking A R) : Q :=
  match t with
  | Answer r => if E r then 1 else 0
  | Ask _ _ k =>
      ((1 # 2) * halves E (k Positive) + (1 # 2) * halves E (k Negative))%Q
  end.

(** What lies below one half of the interval from 0 to [x]. *)
Definition below (x : Q) : Q :=
  if Qlt_le_dec x (1 # 2) then x else (1 # 2)%Q.

(** A fraction whose denominator is a power of two. *)
Definition dyadic (p : Q) : Prop :=
  exists (m : Z) (n : nat), (p * inject_Z (2 ^ Z.of_nat n) == inject_Z m)%Q.

(** A corpus of 201 different records, and the state of [App] with it
    loaded and a query typed in. *)
Definition numberedRecord (i : nat) : TrendData :=
  {| Date := "2024-01-01"; Company := "Acme"; Topic := "Phishing";
     Technology := "Email"; Source := ""; stat := pretty i;
     ResourceName := "Report A" |}.

Definition corpus201 : list TrendData := List.map numberedRecord (seq 0 201).

(** 51 AI results, of 51 different records. *)
Definition fiftyOneRecords : list (TrendData * string) :=
  List.map (fun i => (numberedRecord i, "relevant")) (seq 0 51).

Definition fiftyOneResults : list JSON :=
  List.map (fun result => aiResult (fst result) (snd result)) fiftyOneRecords.

Definition loadedState : AppState :=
  setSearchQuery "ransomware"
    (setIsDataLoading false (setAllData corpus201 initialState)).

(** [Math.random] answering 0 every time, and 0.75 every time. *)
Definition zeroDraws (_ : nat) : Q := 0%Q.

Definition highDraws (_ : nat) : Q := (3 # 4)%Q.

(** ** What [App] renders *)

(** What the body of the [filteredData] memo computes from the state at
    hand.  The browse table shows the memoized value, which is this list
    when it was computed from the state as it is now; see
    [filteredDataMemo] below. *)
Definition visibleData (s : AppState) : list TrendData :=
  filteredData (allData s) (selectedTopics s) (selectedCompanies s)
    (selectedDates s) (searchTerm s).

(** Datasets to run the filter engine on. *)
Definition twoTopics : list TrendData :=
  [phishingRecord;
   {| Date := "2023-05-05"; Company := "Globex"; Topic := "Ransomware";
      Technology := "Backup"; Source := ""; stat := "Ransomware doubled";
      ResourceName := "Report B" |};
   datedRecord "2022-06-15"].

(** The four constraints of [filterPredicate], one by one. *)
Definition facetMatch (selection : list string) (value : string) : bool :=
  (length selection =? 0)%nat || Array_includes selection value.

Definition termMatch (searchTerm : string) (item : TrendData) : bool :=
  String.eqb searchTerm "" ||
  includes (toLowerCase (stat item)) (toLowerCase searchTerm) ||
  includes (toLowerCase (ResourceName item)) (toLowerCase searchTerm) ||
  includes (toLowerCase (Company item)) (toLowerCase searchTerm) ||
  includes (toLowerCase (Topic item)) (toLowerCase searchTerm) ||
  includes (toLowerCase (Technology item)) (toLowerCase searchTerm).

(** The selection [sel'] lets through at least what [sel] lets through:
    it is empty, or [sel] selects something and all of it is in [sel']. *)
Definition facetWider (sel sel' : list string) : Prop :=
  sel' = [] \/ (sel <> [] /\ forall x, x ∈ sel -> x ∈ sel').

(** *** The panels of the result section ([App.tsx], lines 173 and
    266-320) and of the summary section (lines 218-262)

    The conditions below are those of the JSX of the main page.  [App]
    returns before it while the data is loading and after a failed load
    (lines 156-171): [rendersMain] says that the main page is rendered. *)

Definition rendersMain (s : AppState) : bool :=
  negb (isDataLoading s) && negb (optionTruthy (dataError s)).

Definition showAiResults (s : AppState) : bool :=
  (0 <? length (aiResults s))%nat || isSearching s || optionTruthy (aiError s).

Definition rendersSpinner (s : AppState) : bool := isSearching s.

Definition rendersSearchFailed (s : AppState) : bool := optionTruthy (aiError s).

Definition rendersAiTable (s : AppState) : bool :=
  (0 <? length (aiResults s))%nat && negb (isSearching s).

Definition rendersBrowse (s : AppState) : bool := negb (showAiResults s).

Definition resultPanels (s : AppState) : list bool :=
  [rendersSpinner s; rendersSearchFailed s; rendersAiTable s; rendersBrowse s].

(** The panels of the result section as [App] renders them: none while
    the loader or the load error is all that is returned. *)
Definition resultSection (s : AppState) : list bool :=
  List.map (andb (rendersMain s)) (resultPanels s).

Definition rendersSummarizing (s : AppState) : bool := isSummarizing s.

Definition rendersSummaryFailed (s : AppState) : bool :=
  optionTruthy (summaryError s).

Definition rendersSummary (s : AppState) : bool :=
  optionTruthy (summary s) && negb (isSummarizing s).

Definition rendersGenerateButton (s : AppState) : bool :=
  negb (optionTruthy (summary s)) && negb (isSummarizing s) &&
  negb (optionTruthy (summaryError s)) && (0 <? length (aiResults s))%nat.

Definition summaryPanels (s : AppState) : list bool :=
  [rendersSummarizing s; rendersSummaryFailed s; rendersSummary s;
   rendersGenerateButton s].

Definition summarySection (s : AppState) : list bool :=
  List.map (andb (rendersMain s)) (summaryPanels s).

(** How many panels of a list are rendered. *)
Definition shown (panels : list bool) : nat :=
  length (List.filter (fun b : bool => b) panels).

(** *** The states [App] can be in *)

(** The answer of a call arrives only while the call is pending, which
    the loading flag of its kind records; the button that generates the
    summary is clicked only where it is rendered.  The other handlers may
    run in any state. *)
Definition possible (s : AppState) (e : Event) : Prop :=
  match e with
  | DataSettled _ => isDataLoading s = true
  | AiSearchSettled _ => isSearching s = true
  | SummarySettled _ => isSummarizing s = true
  | GenerateSummary => rendersGenerateButton s = true
  | _ => True
  end.

Inductive reachable (JSON_parse : string -> option JSON) : AppState -> Prop :=
| reachable_initial : reachable JSON_parse initialState
| reachable_step (s : AppState) (e : Event) (draws : nat -> Q) :
    reachable JSON_parse s -> possible s e ->
    reachable JSON_parse (fst (run (step JSON_parse s e) draws)).

(** What the handlers keep true of the search fields, of the summary
    fields and of the selections. *)
Definition searchConsistent (s : AppState) : Prop :=
  (isSearching s = true -> aiResults s = [] /\ aiError s = None) /\
  (forall m, aiError s = Some m -> truthy m = true /\ aiResults s = []).

Definition summaryConsistent (s : AppState) : Prop :=
  (isSummarizing s = true -> summary s = None /\ summaryError s = None) /\
  (forall text, summary s = Some text -> summaryError s = None).

Definition selectionsDistinct (s : AppState) : Prop :=
  NoDup (selectedTopics s) /\ NoDup (selectedCompanies s) /\
  NoDup (selectedDates s).

(** A state that is reached by loading one record and typing a query. *)
Definition typedState : AppState :=
  fst (run (step noParser
              (fst (run (step noParser initialState
                           (DataSettled (Some [phishingRecord]))) zeroDraws))
              (SearchQueryChange "phishing trends")) zeroDraws).

(** A state with two AI results, reached by a search that the model
    answered. *)
Definition resultsState : AppState :=
  setAiResults [aiResult phishingRecord "on topic";
                aiResult (datedRecord "2023-05-05") "same publisher"]
    typedState.

(** *** The memo of the browse table ([App.tsx], lines 70-86)

    [useMemo] computes [filteredData] anew when one of its dependencies
    is another value than at the render before, and keeps the list it has
    otherwise.  Arrays are compared by identity: [setAllData] and the
    toggles and the reset of the selections store new arrays, while the
    search sorts the array of [allData] in place, which leaves its
    identity as it was.  The term is a string, compared by value. *)
Record Screen : Type := mkScreen {
  appState : AppState;
  filteredDataMemo : list TrendData
}.

Definition dependenciesChange (s : AppState) (e : Event) : bool :=
  match e with
  | DataSettled (Some _) => true
  | SearchTermChange value => negb (String.eqb value (searchTerm s))
  | TopicToggle _ | CompanyToggle _ | DateToggle _ | ResetFilters => true
  | _ => false
  end.

Definition initialScreen : Screen :=
  {| appState := initialState; filteredDataMemo := visibleData initialState |}.

(** The render that follows the event [e]. *)
Definition render (JSON_parse : string -> option JSON) (screen : Screen)
    (e : Event) (draws : nat -> Q) : Screen :=
  let s' := fst (run (step JSON_parse (appState screen) e) draws) in
  {| appState := s';
     filteredDataMemo :=
       if dependenciesChange (appState screen) e then visibleData s'
       else filteredDataMemo screen |}.

Inductive reachableScreen (JSON_parse : string -> option JSON)
    : Screen -> Prop :=
| reachableScreen_initial : reachableScreen JSON_parse initialScreen
| reachableScreen_step (screen : Screen) (e : Event) (draws : nat -> Q) :
    reachableScreen JSON_parse screen -> possible (appState screen) e ->
    reachableScreen JSON_parse (render JSON_parse screen e draws).

(** The memo holds the records the filter computes for the state, and is
    that list when the dataset was never sorted in place. *)
Definition memoConsistent (screen : Screen) : Prop :=
  filteredDataMemo screen ≡ₚ visibleData (appState screen) /\
  ((length (allData (appState screen)) <= 200)%nat ->
   filteredDataMemo screen = visibleData (appState screen)).

(** *** A session to run the coordinator on

    Three records are loaded, a query is typed, two topics are selected,
    the search is submitted and answered with two results, the summary is
    asked for and arrives. *)
Definition twoResults : list JSON :=
  [aiResult phishingRecord "on topic";
   aiResult (datedRecord "2023-05-05") "same publisher"].

Definition resultsParser (_ : string) : option JSON := Some (JArray twoResults).

Definition after (s : AppState) (e : Event) : AppState :=
  fst (run (step resultsParser s e) zeroDraws).

Definition toggledState : AppState :=
  after (after (after (after initialState (DataSettled (Some twoTopics)))
                  (SearchQueryChange "phishing trends"))
           (TopicToggle "Phishing"))
    (TopicToggle "Ransomware").

Definition searchingState : AppState := after toggledState AiSearch.

Definition answeredState : AppState :=
  after searchingState (AiSearchSettled (Fulfilled "[{}, {}]")).

Definition summarizingState : AppState := after answeredState GenerateSummary.

Definition summarisedState : AppState :=
  after summarizingState (SummarySettled (Fulfilled " Phishing leads. ")).

Definition twoTopicsScreen : Screen :=
  render resultsParser initialScreen (DataSettled (Some twoTopics)) zeroDraws.

Definition phishingScreen : Screen :=
  render resultsParser twoTopicsScreen (TopicToggle "Phishing") zeroDraws.

(** The large corpus loaded and searched with every draw at 0.75. *)
Definition searchedScreen : Screen :=
  render noParser
    (render noParser
       (render noParser initialScreen (DataSettled (Some corpus201)) zeroDraws)
       (SearchQueryChange "ransomware") zeroDraws)
    AiSearch highDraws.

(** * Properties *)

(** ** Platform strings *)

Lemma startsWith_spec (s t : string) :
  startsWith s t = true <-> exists b, s = t +:+ b.
Proof.
  revert s; induction t as [|c t IH]; intros s; simpl.
  - split; [intros _; exists s; reflexivity | reflexivity].
  - destruct s as [|a s]; simpl.
    + split; [discriminate | intros [b Hb]; discriminate].
    + rewrite andb_true_iff, Ascii.eqb_eq, IH. split.
      * intros [-> [b ->]]. exists b. reflexivity.
      * intros [b Hb]. injection Hb as -> ->. split; [reflexivity | eauto].
Qed.

Lemma includes_spec (s t : string) :
  includes s t = true <-> isSubstring t s.
Proof.
  unfold isSubstring. induction s as [|c s IH]; simpl.
  - rewrite orb_false_r, startsWith_spec. split.
    + intros [b Hb]. exists "", b. exact Hb.
    + intros [a [b Hab]]. destruct a; [exists b; exact Hab | discriminate].
  - rewrite orb_true_iff, IH, startsWith_spec. split.
    + intros [[b Hb] | [a [b Hab]]].
      * exists "", b. exact Hb.
      * exists (String c a), b. rewrite Hab. reflexivity.
    + intros [a [b Hab]]. destruct a as [|c' a]; simpl in Hab.
      * left. exists b. exact Hab.
      * right. injection Hab as _ Hab. exists a, b. exact Hab.
Qed.

Lemma Array_includes_spec (l : list string) (x : string) :
  Array_includes l x = true <-> x ∈ l.
Proof.
  unfold Array_includes. rewrite existsb_exists, list_elem_of_In. split.
  - intros [y [Hy Heq]]. apply String.eqb_eq in Heq. subst. exact Hy.
  - intros Hx. exists x. split; [exact Hx | apply String.eqb_refl].
Qed.

Lemma length_zero_spec {A} (l : list A) : (length l =? 0)%nat = true <-> l = [].
Proof. destruct l; simpl; split; (reflexivity || discriminate). Qed.

(** ** Filter engine *)

Lemma facet_match_spec (selection : list string) (value : string) :
  (length selection =? 0)%nat || Array_includes selection value = true
  <-> facetPasses selection value.
Proof.
  unfold facetPasses.
  rewrite orb_true_iff, length_zero_spec, Array_includes_spec. reflexivity.
Qed.

Lemma filterPredicate_spec topics companies dates term (r : TrendData) :
  filterPredicate topics companies dates term r = true
  <-> passesAll topics companies dates term r.
Proof.
  unfold filterPredicate, passesAll, termPasses.
  rewrite !andb_true_iff, !facet_match_spec, !orb_true_iff, String.eqb_eq,
    !includes_spec.
  split.
  - intros [[[Ht Hc] Hd] Hterm]. repeat split; try assumption.
    destruct Hterm as [[[[[H|H]|H]|H]|H]|H]; [left; exact H | right ..];
      eexists; (split; [|exact H]); rewrite !elem_of_cons; tauto.
  - intros (Ht & Hc & Hd & Hterm). repeat split; try assumption.
    destruct Hterm as [H | [field [Hin H]]]; [tauto |].
    rewrite !elem_of_cons in Hin.
    destruct Hin as [->|[->|[->|[->|[->|Hin]]]]]; [tauto .. |].
    inversion Hin.
Qed.

Lemma filter_sublist {A} (f : A -> bool) (l : list A) :
  sublist (List.filter f l) l.
Proof.
  induction l as [|x l IH]; simpl; [constructor |].
  destruct (f x); [apply sublist_skip | apply sublist_cons]; exact IH.
Qed.

(** C1. The filtered list is a subsequence of the dataset in the dataset's
    order; a record is returned exactly when it is in the dataset and passes
    the three facet predicates (selection empty, or value selected) and the
    term predicate (term empty, or the lower-cased term occurs in the
    lower-cased stat, resourceName, company, topic or technology); with no
    selection and no term the output is the dataset itself. *)
Theorem filteredData_sound (D : list TrendData)
    (topics companies dates : list string) (term : string) :
  sublist (filteredData D topics companies dates term) D /\
  (forall r, r ∈ filteredData D topics companies dates term <->
             r ∈ D /\ passesAll topics companies dates term r) /\
  filteredData D [] [] [] "" = D.
Proof.
  split; [apply filter_sublist | split].
  - intros r. unfold filteredData.
    rewrite !list_elem_of_In, filter_In, filterPredicate_spec. reflexivity.
  - unfold filteredData. induction D as [|r D IH]; simpl; [reflexivity |].
    f_equal. exact IH.
Qed.

Example filteredData_term_any_case :
  filteredData [phishingRecord] [] [] [] "PHISHing" = [phishingRecord].
Proof. reflexivity. Qed.

Example filteredData_term_absent :
  filteredData [phishingRecord] [] [] [] "ransomware" = [].
Proof. reflexivity. Qed.

Example filteredData_facets :
  filteredData [phishingRecord; datedRecord "2023-05-05"]
    ["Phishing"] ["Acme"; "Other"] ["2023-05-05"] "" =
  [datedRecord "2023-05-05"].
Proof. reflexivity. Qed.

(** ** The sort engine *)

(** The sorted array has the elements of the array, whatever the
    comparator answers.  Proved once, for every monad with a way to state
    a property of the results of a computation. *)
Section SortPermutes.
Context {M : Type -> Type}.
Variable unit_ : forall T, T -> M T.
Variable bind_ : forall T U, M T -> (T -> M U) -> M U.
Variable lift : forall T, (T -> Prop) -> M T -> Prop.
Hypothesis lift_unit : forall T (P : T -> Prop) x, P x -> lift T P (unit_ T x).
Hypothesis lift_bind :
  forall T U (P : T -> Prop) (Q : U -> Prop) m f,
    lift T P m -> (forall x, P x -> lift U Q (f x)) ->
    lift U Q (bind_ T U m f).
Context {A : Type}.
Variable comparefn : A -> A -> M Sign.
Hypothesis compare_any : forall a b, lift Sign (fun _ => True) (comparefn a b).

Lemma extendRun_moves (descending : bool) (rest run : list A) (previous : A)
    (l : list A) :
  rev run ++ rest = l ->
  lift _ (fun found => rev (fst found) ++ snd found = l)
    (extendRun unit_ bind_ comparefn descending run previous rest).
Proof.
  revert run previous; induction rest as [|current rest IH];
    intros run previous Hl; simpl.
  - apply lift_unit. exact Hl.
  - eapply lift_bind; [apply compare_any |]. intros order _.
    destruct (Bool.eqb (isNegative order) descending).
    + apply IH. simpl. rewrite <- app_assoc. exact Hl.
    + apply lift_unit. exact Hl.
Qed.

Lemma countAndMakeRun_perm (l : list A) :
  lift _ (fun found => fst found ++ snd found ≡ₚ l)
    (countAndMakeRun unit_ bind_ comparefn l).
Proof.
  destruct l as [|first [|second rest]]; simpl;
    try (apply lift_unit; simpl; rewrite ?app_nil_r; reflexivity).
  eapply lift_bind; [apply compare_any |]. intros order _.
  eapply lift_bind; [apply (extendRun_moves _ _ _ _ (first :: second :: rest));
                     reflexivity |].
  intros found Hfound. apply lift_unit. simpl. rewrite <- Hfound.
  destruct (isNegative order); [| reflexivity].
  apply Permutation_app_tail. apply Permutation_rev.
Qed.

Lemma insertAt_perm (position : nat) (pivot : A) (sorted : list A) :
  insertAt position pivot sorted ≡ₚ pivot :: sorted.
Proof.
  unfold insertAt. rewrite <- Permutation_middle.
  rewrite take_drop. reflexivity.
Qed.

Lemma findPosition_any (fuel : nat) (sorted : list A) (pivot : A)
    (left right : nat) :
  lift _ (fun _ => True)
    (findPosition unit_ bind_ comparefn fuel sorted pivot left right).
Proof.
  revert left right; induction fuel as [|fuel IH]; intros left right; simpl.
  - apply lift_unit. exact I.
  - destruct (left <? right)%nat; [| apply lift_unit; exact I].
    destruct (sorted !! _); [| apply lift_unit; exact I].
    eapply lift_bind; [apply compare_any |]. intros order _.
    destruct (isNegative order); apply IH.
Qed.

Lemma binaryInsertionSort_perm (rest sorted l : list A) :
  sorted ++ rest ≡ₚ l ->
  lift _ (fun result => result ≡ₚ l)
    (binaryInsertionSort unit_ bind_ comparefn sorted rest).
Proof.
  revert sorted; induction rest as [|pivot rest IH]; intros sorted Hl; simpl.
  - apply lift_unit. rewrite app_nil_r in Hl. exact Hl.
  - eapply lift_bind; [apply findPosition_any |]. intros position _.
    apply IH. rewrite insertAt_perm. rewrite <- Hl. simpl.
    apply Permutation_middle.
Qed.

Lemma sortWith_perm (l : list A) :
  lift _ (fun result => result ≡ₚ l) (sortWith unit_ bind_ comparefn l).
Proof.
  unfold sortWith. eapply lift_bind; [apply countAndMakeRun_perm |].
  intros found Hfound. apply binaryInsertionSort_perm. exact Hfound.
Qed.
End SortPermutes.

Lemma Array_sort_perm {A} (comparefn : A -> A -> Sign) (l : list A) :
  Array_sort comparefn l ≡ₚ l.
Proof.
  apply (sortWith_perm (M := fun T => T) (fun _ x => x) (fun _ _ x f => f x)
           (fun _ P x => P x)); auto.
Qed.

Lemma everyAnswer_bind {A R S} (P : R -> Prop) (Q : S -> Prop)
    (t : asking A R) (f : R -> asking A S) :
  everyAnswer P t -> (forall x, P x -> everyAnswer Q (f x)) ->
  everyAnswer Q (abind t f).
Proof.
  intros Ht Hf. induction t as [r | a b k IH]; simpl in *; auto.
Qed.

Lemma engine_perm {A} (l : list A) :
  everyAnswer (fun result => result ≡ₚ l) (engine l).
Proof.
  apply (sortWith_perm (M := asking A) (@Answer A) (@abind A)
           (fun _ P t => everyAnswer P t)).
  - intros T P x Hx. exact Hx.
  - intros T U P Q m f. apply everyAnswer_bind.
  - intros a b c. exact I.
Qed.

(** Sortedness, for a comparator that is consistent with a transitive
    relation [R] on the elements at hand (those satisfying [P]). *)
Section PureSort.
Context {A : Type} (comparefn : A -> A -> Sign).

Local Abbreviation pure_ := (fun (T : Type) (x : T) => x).
Local Abbreviation then_ := (fun (T U : Type) (x : T) (f : T -> U) => f x).

Variable P : A -> Prop.
Variable R : A -> A -> Prop.
Hypothesis R_trans : forall a b c, P a -> P b -> P c -> R a b -> R b c -> R a c.
Hypothesis before_ok :
  forall x y, P x -> P y -> comparefn x y = Negative -> R x y.
Hypothesis after_ok :
  forall x y, P x -> P y -> comparefn x y <> Negative -> R y x.

Lemma isNegative_true (c : Sign) : isNegative c = true <-> c = Negative.
Proof. destruct c; simpl; split; congruence. Qed.

Lemma isNegative_false (c : Sign) : isNegative c = false <-> c <> Negative.
Proof. destruct c; simpl; split; congruence. Qed.

(** A run read downwards is in order as it stands, last element first;
    a run read upwards is in order read backwards. *)
Lemma extendRun_sorted (descending : bool) (rest run : list A) (previous : A) :
  P previous -> Forall P run -> Forall P rest ->
  StronglySorted (if descending then R else flip R) (previous :: run) ->
  let found :=
    extendRun (M := fun T => T) pure_ then_ comparefn descending
      (previous :: run) previous rest in
  StronglySorted (if descending then R else flip R) (fst found) /\
  Forall P (fst found) /\ Forall P (snd found).
Proof.
  revert run previous; induction rest as [|current rest IH];
    intros run previous Hp Hrun Hrest Hs; simpl.
  - repeat split; [exact Hs | constructor; assumption | constructor].
  - apply Forall_cons in Hrest as [Hc Hrest].
    destruct (Bool.eqb (isNegative (comparefn current previous)) descending)
      eqn:Heq; simpl.
    + apply IH; [exact Hc | constructor; assumption | exact Hrest |].
      apply Bool.eqb_prop in Heq.
      constructor; [exact Hs |].
      apply StronglySorted_inv in Hs as [_ Hprev].
      assert (Hstep : (if descending then R else flip R) current previous).
      { destruct descending.
        - apply before_ok; [assumption .. |]. apply isNegative_true. exact Heq.
        - apply after_ok; [assumption .. |]. apply isNegative_false. exact Heq. }
      constructor; [exact Hstep |].
      rewrite Forall_forall in Hprev, Hrun |- *. intros z Hz.
      specialize (Hprev z Hz). specialize (Hrun z Hz).
      destruct descending; unfold flip in *.
      * apply (R_trans current previous z); assumption.
      * apply (R_trans z previous current); assumption.
    + repeat split;
        [exact Hs | constructor; assumption | constructor; assumption].
Qed.

Lemma StronglySorted_flip_rev (l : list A) :
  StronglySorted (flip R) l -> StronglySorted R (rev l).
Proof.
  induction 1 as [|y ys Hs IH Hy]; simpl; [constructor |].
  apply StronglySorted_app_2; [| exact IH | repeat constructor].
  intros a b Ha Hb. apply list_elem_of_singleton in Hb as ->.
  rewrite Forall_forall in Hy. apply Hy.
  apply list_elem_of_In. apply in_rev. apply list_elem_of_In. exact Ha.
Qed.

Lemma countAndMakeRun_sorted (l : list A) :
  Forall P l ->
  let found := countAndMakeRun (M := fun T => T) pure_ then_ comparefn l in
  StronglySorted R (fst found) /\ Forall P (fst found) /\ Forall P (snd found).
Proof.
  intros Hl. destruct l as [|first [|second rest]]; simpl.
  - repeat split; constructor.
  - repeat split; [repeat constructor | exact Hl | constructor].
  - apply Forall_cons in Hl as [Hfirst Hl]. apply Forall_cons in Hl as [Hsecond Hl].
    destruct (isNegative (comparefn second first)) eqn:Hneg.
    + destruct (extendRun_sorted true rest [first] second) as (Hs & Hp & Hr);
        [assumption | repeat constructor; assumption | assumption | |].
      { repeat constructor. apply before_ok; [assumption .. |].
        apply isNegative_true. exact Hneg. }
      repeat split; assumption.
    + destruct (extendRun_sorted false rest [first] second) as (Hs & Hp & Hr);
        [assumption | repeat constructor; assumption | assumption | |].
      { repeat constructor. unfold flip. apply after_ok; [assumption .. |].
        apply isNegative_false. exact Hneg. }
      repeat split; [| | assumption].
      * apply StronglySorted_flip_rev. exact Hs.
      * rewrite Forall_forall in Hp |- *. intros z Hz. apply Hp.
        apply list_elem_of_In. apply in_rev. apply list_elem_of_In. exact Hz.
Qed.

Lemma sorted_lookup (l : list A) :
  StronglySorted R l ->
  forall i j a b, (i < j)%nat -> l !! i = Some a -> l !! j = Some b -> R a b.
Proof.
  induction 1 as [|x l Hs IH Hx]; intros i j a b Hij Hi Hj.
  - inversion Hi.
  - destruct j as [|j]; [lia |]. simpl in Hj.
    destruct i as [|i]; simpl in Hi.
    + injection Hi as <-. rewrite Forall_forall in Hx. apply Hx.
      eapply list_elem_of_lookup_2. exact Hj.
    + apply (IH i j); [lia | assumption ..].
Qed.

Lemma half_bounds (n : nat) : (0 < n -> n / 2 < n)%nat.
Proof.
  intros Hn. apply Nat.div_lt; lia.
Qed.

(** Whatever the comparator answers, the binary search is over before
    fuel as large as the interval is used up: more fuel changes nothing. *)
Lemma findPosition_fuel (fuel fuel' : nat) (sorted : list A) (pivot : A)
    (left right : nat) :
  (right - left <= fuel)%nat -> (right - left <= fuel')%nat ->
  findPosition (M := fun T => T) pure_ then_ comparefn fuel sorted pivot
    left right =
  findPosition (M := fun T => T) pure_ then_ comparefn fuel' sorted pivot
    left right.
Proof.
  revert fuel' left right.
  induction fuel as [|fuel IH]; intros fuel' left right Hfuel Hfuel'.
  - destruct fuel' as [|fuel']; cbn [findPosition]; [reflexivity |].
    destruct (Nat.ltb_spec left right); [lia | reflexivity].
  - destruct fuel' as [|fuel']; cbn [findPosition].
    + destruct (Nat.ltb_spec left right); [lia | reflexivity].
    + destruct (Nat.ltb_spec left right) as [Hlt | Hge]; [| reflexivity].
      pose proof (half_bounds (right - left) ltac:(lia)) as Hhalf.
      set (mid := (left + (right - left) / 2)%nat) in *.
      assert (Hmid : (left <= mid < right)%nat) by (unfold mid; lia).
      destruct (sorted !! mid) as [element |]; [| reflexivity].
      destruct (isNegative (comparefn pivot element)); apply IH; lia.
Qed.

(** The binary search ends, with fuel to spare, at a place that has the
    elements not above the pivot before it and the others after it. *)
Lemma findPosition_sorted (fuel : nat) (sorted : list A) (pivot : A)
    (left right : nat) :
  StronglySorted R sorted -> Forall P sorted -> P pivot ->
  (left <= right)%nat -> (right <= length sorted)%nat ->
  (right - left <= fuel)%nat ->
  (forall i e, (i < left)%nat -> sorted !! i = Some e -> R e pivot) ->
  (forall i e, (right <= i)%nat -> sorted !! i = Some e -> R pivot e) ->
  let position :=
    findPosition (M := fun T => T) pure_ then_ comparefn fuel sorted pivot
      left right in
  (forall i e, (i < position)%nat -> sorted !! i = Some e -> R e pivot) /\
  (forall i e, (position <= i)%nat -> sorted !! i = Some e -> R pivot e).
Proof.
  intros Hs Hp Hpivot. revert left right.
  induction fuel as [|fuel IH]; intros left right Hlr Hr Hfuel Hleft Hright;
    cbn [findPosition].
  - assert (left = right) as -> by lia. split; assumption.
  - destruct (Nat.ltb_spec left right) as [Hlt | Hge];
      [| assert (left = right) as -> by lia; split; assumption].
    pose proof (half_bounds (right - left) ltac:(lia)) as Hhalf.
    set (mid := (left + (right - left) / 2)%nat) in *.
    assert (Hmid : (left <= mid < right)%nat) by (unfold mid; lia).
    destruct (sorted !! mid) as [element |] eqn:Helement.
    2: { apply lookup_ge_None in Helement. lia. }
    assert (Pelement : P element).
    { rewrite Forall_forall in Hp. apply Hp.
      eapply list_elem_of_lookup_2. exact Helement. }
    assert (Pat : forall i e, sorted !! i = Some e -> P e).
    { intros i e Hi. rewrite Forall_forall in Hp. apply Hp.
      eapply list_elem_of_lookup_2. exact Hi. }
    destruct (isNegative (comparefn pivot element)) eqn:Hneg.
    + apply IH; [lia | lia | lia | exact Hleft |].
      intros i e Hi He.
      assert (Hpe : R pivot element).
      { apply before_ok; [assumption .. |]. apply isNegative_true. exact Hneg. }
      destruct (decide (i = mid)) as [-> | Hne].
      * rewrite Helement in He. injection He as <-. exact Hpe.
      * apply (R_trans pivot element e); eauto.
        apply (sorted_lookup sorted Hs mid i); [lia | assumption ..].
    + apply IH; [lia | lia | lia | | exact Hright].
      intros i e Hi He.
      assert (Hep : R element pivot).
      { apply after_ok; [assumption .. |]. apply isNegative_false. exact Hneg. }
      destruct (decide (i = mid)) as [-> | Hne].
      * rewrite Helement in He. injection He as <-. exact Hep.
      * apply (R_trans e element pivot); eauto.
        apply (sorted_lookup sorted Hs i mid); [lia | assumption ..].
Qed.

Lemma insertAt_sorted (position : nat) (pivot : A) (sorted : list A) :
  StronglySorted R sorted ->
  (forall i e, (i < position)%nat -> sorted !! i = Some e -> R e pivot) ->
  (forall i e, (position <= i)%nat -> sorted !! i = Some e -> R pivot e) ->
  StronglySorted R (insertAt position pivot sorted).
Proof.
  intros Hs Hbefore Hafter. unfold insertAt.
  rewrite <- (take_drop position sorted) in Hs.
  apply StronglySorted_app in Hs as (Hcross & Htake & Hdrop).
  apply StronglySorted_app_2.
  - intros x1 x2 H1 H2. apply elem_of_cons in H2 as [-> | H2].
    + apply list_elem_of_lookup_1 in H1 as [i Hi].
      apply lookup_take_Some in Hi as [Hi Hlt]. eapply Hbefore; eassumption.
    + apply Hcross; assumption.
  - exact Htake.
  - constructor; [exact Hdrop |].
    rewrite Forall_forall. intros z Hz.
    apply list_elem_of_lookup_1 in Hz as [i Hi].
    rewrite lookup_drop in Hi. eapply Hafter; [| exact Hi]. lia.
Qed.

Lemma binaryInsertionSort_sorted (rest sorted : list A) :
  StronglySorted R sorted -> Forall P sorted -> Forall P rest ->
  StronglySorted R
    (binaryInsertionSort (M := fun T => T) pure_ then_ comparefn sorted rest).
Proof.
  revert sorted; induction rest as [|pivot rest IH];
    intros sorted Hs Hp Hrest; simpl; [exact Hs |].
  apply Forall_cons in Hrest as [Hpivot Hrest].
  destruct (findPosition_sorted (length sorted) sorted pivot 0 (length sorted))
    as [Hbefore Hafter];
    [assumption | assumption | assumption | lia | lia | lia
    | intros i e Hi; lia
    | intros i e Hi He; apply lookup_lt_Some in He; lia |].
  apply IH; [apply insertAt_sorted; assumption | | exact Hrest].
  rewrite Forall_forall in Hp |- *. intros z Hz.
  rewrite insertAt_perm in Hz.
  apply elem_of_cons in Hz as [-> | Hz]; auto.
Qed.

Lemma Array_sort_sorted (l : list A) :
  Forall P l -> StronglySorted R (Array_sort comparefn l).
Proof.
  intros Hl. unfold Array_sort, sortWith.
  destruct (countAndMakeRun_sorted l Hl) as (Hs & Hp & Hr).
  apply binaryInsertionSort_sorted; assumption.
Qed.
End PureSort.

Example isoGetTime_epoch : IsoDate.isoGetTime "1970-01-01" = Some 0%Z.
Proof. reflexivity. Qed.

Example isoGetTime_2024 :
  IsoDate.isoGetTime "2024-01-01" = Some 1704067200000%Z.
Proof. reflexivity. Qed.

Example isoGetTime_month13 : IsoDate.isoGetTime "2024-13-01" = None.
Proof. reflexivity. Qed.

Example isoGetTime_day30 :
  IsoDate.isoGetTime "2024-02-30" = IsoDate.isoGetTime "2024-03-01" /\
  IsoDate.isoGetTime "2024-02-32" = None.
Proof. split; reflexivity. Qed.

(** ** Facets *)

Lemma truthy_spec (s : string) : truthy s = true <-> s <> "".
Proof.
  unfold truthy. rewrite negb_true_iff. apply String.eqb_neq.
Qed.

Lemma Set_add_elem (s : list string) (x y : string) :
  x ∈ Set_add s y <-> x ∈ s \/ x = y.
Proof.
  unfold Set_add. destruct (Array_includes s y) eqn:Hin.
  - apply Array_includes_spec in Hin. split; [tauto | intros [H | ->]; assumption].
  - rewrite elem_of_app, list_elem_of_singleton. reflexivity.
Qed.

Lemma Set_add_NoDup (s : list string) (y : string) :
  NoDup s -> NoDup (Set_add s y).
Proof.
  intros Hs. unfold Set_add. destruct (Array_includes s y) eqn:Hin; [exact Hs |].
  apply NoDup_app. split; [exact Hs | split; [| apply NoDup_singleton]].
  intros x Hx Hy. apply list_elem_of_singleton in Hy as ->.
  apply Array_includes_spec in Hx. congruence.
Qed.

Lemma collectField_elem (f : TrendData -> string) (D : list TrendData)
    (acc : list string) (v : string) :
  v ∈ collectField f D acc <->
  v ∈ acc \/ (v <> "" /\ exists r, r ∈ D /\ f r = v).
Proof.
  unfold collectField. revert acc; induction D as [|r D IH]; intros acc; simpl.
  - split; [tauto | intros [H | [_ [r [Hr _]]]]; [exact H | inversion Hr]].
  - rewrite IH. destruct (truthy (f r)) eqn:Ht.
    + apply truthy_spec in Ht. rewrite Set_add_elem. split.
      * intros [[H | ->] | [Hv [r' [Hr' Hf]]]]; [tauto | |].
        -- right. split; [exact Ht | exists r; split; [left | reflexivity]].
        -- right. split; [exact Hv | exists r'; split; [right; exact Hr' | exact Hf]].
      * intros [H | [Hv [r' [Hr' Hf]]]]; [tauto |].
        apply elem_of_cons in Hr' as [-> | Hr']; [left; right; auto |].
        right. eauto.
    + assert (f r = "") as Hempty.
      { destruct (String.eqb_spec (f r) ""); [assumption |].
        apply truthy_spec in n. congruence. }
      split.
      * intros [H | [Hv [r' [Hr' Hf]]]]; [tauto |].
        right. split; [exact Hv | exists r'; split; [right; exact Hr' | exact Hf]].
      * intros [H | [Hv [r' [Hr' Hf]]]]; [tauto |].
        apply elem_of_cons in Hr' as [-> | Hr']; [congruence |].
        right. eauto.
Qed.

Lemma collectField_NoDup (f : TrendData -> string) (D : list TrendData)
    (acc : list string) :
  NoDup acc -> NoDup (collectField f D acc).
Proof.
  unfold collectField. revert acc; induction D as [|r D IH]; intros acc Hacc; simpl.
  - exact Hacc.
  - apply IH. destruct (truthy (f r)); [apply Set_add_NoDup |]; exact Hacc.
Qed.

Lemma collectFacets_fold (D : list TrendData) (a b c : list string) :
  fold_left
    (fun '(topics, companies, dates) item =>
       (if truthy (Topic item) then Set_add topics (Topic item) else topics,
        if truthy (Company item) then Set_add companies (Company item) else companies,
        if truthy (Date item) then Set_add dates (Date item) else dates))
    D (a, b, c) =
  (collectField Topic D a, collectField Company D b, collectField Date D c).
Proof.
  unfold collectField.
  revert a b c; induction D as [|r D IH]; intros a b c; simpl; [reflexivity |].
  apply IH.
Qed.

Lemma collectFacets_fields (D : list TrendData) :
  collectFacets D =
  (collectField Topic D [], collectField Company D [], collectField Date D []).
Proof. apply collectFacets_fold. Qed.

Lemma filterOptions_fields (getTime : string -> option Z) (D : list TrendData) :
  filterOptions getTime D =
  {| topics := Array_sort defaultCompare (collectField Topic D []);
     companies := Array_sort defaultCompare (collectField Company D []);
     dates := Array_sort (dateCompare getTime) (collectField Date D []) |}.
Proof. unfold filterOptions. rewrite collectFacets_fields. reflexivity. Qed.

Lemma defaultCompare_sorted (l : list string) :
  StronglySorted String.le (Array_sort defaultCompare l).
Proof.
  apply (Array_sort_sorted defaultCompare (fun _ => True) String.le).
  - intros a b c _ _ _ Hab Hbc. etrans; eassumption.
  - intros x y _ _ Hc. unfold String.le, String.leb, defaultCompare in *.
    destruct (String.compare x y); simpl; auto; discriminate.
  - intros x y _ _ Hc. unfold String.le, String.leb, defaultCompare in *.
    rewrite String.compare_antisym.
    destruct (String.compare x y); simpl; auto; congruence.
  - apply Forall_forall. auto.
Qed.

Lemma dateCompare_sorted (getTime : string -> option Z) (l : list string) :
  Forall (fun a => is_Some (getTime a)) l ->
  StronglySorted (laterOrSame getTime) (Array_sort (dateCompare getTime) l).
Proof.
  apply (Array_sort_sorted (dateCompare getTime)
           (fun a => is_Some (getTime a)) (laterOrSame getTime)).
  - intros a b c _ _ _ (ta & tb & Ha & Hb & Hab) (tb' & tc & Hb' & Hc & Hbc).
    exists ta, tc. repeat split; try assumption. simplify_eq. lia.
  - intros x y [tx Hx] [ty Hy] Hc. exists tx, ty.
    repeat split; try assumption.
    unfold dateCompare in Hc. rewrite Hx, Hy in Hc.
    destruct (ty - tx)%Z eqn:Hd; simpl in Hc; try discriminate. lia.
  - intros x y [tx Hx] [ty Hy] Hc. exists ty, tx.
    repeat split; try assumption.
    unfold dateCompare in Hc. rewrite Hx, Hy in Hc.
    destruct (ty - tx)%Z eqn:Hd; simpl in Hc; try lia. congruence.
Qed.

Lemma StronglySorted_lookup {A} (R : A -> A -> Prop) (l : list A) :
  StronglySorted R l ->
  forall i j a b, (i < j)%nat -> l !! i = Some a -> l !! j = Some b -> R a b.
Proof.
  induction 1 as [|x l Hs IH Hx]; intros i j a b Hij Hi Hj.
  - inversion Hi.
  - destruct j as [|j]; [lia |]. simpl in Hj.
    destruct i as [|i]; simpl in Hi.
    + injection Hi as <-. rewrite Forall_forall in Hx. apply Hx.
      eapply list_elem_of_lookup_2. exact Hj.
    + apply (IH i j); [lia | assumption ..].
Qed.

Lemma filteredData_elem (D : list TrendData)
    (topics companies dates : list string) (term : string) (r : TrendData) :
  r ∈ filteredData D topics companies dates term <->
  r ∈ D /\ passesAll topics companies dates term r.
Proof.
  unfold filteredData.
  rewrite !list_elem_of_In, filter_In, filterPredicate_spec. reflexivity.
Qed.

Lemma single_facet_nonempty (D : list TrendData) (r : TrendData)
    (ts cs ds : list string) :
  r ∈ D -> facetPasses ts (Topic r) -> facetPasses cs (Company r) ->
  facetPasses ds (Date r) ->
  filteredData D ts cs ds "" <> [].
Proof.
  intros Hr Ht Hc Hd Hnil.
  assert (r ∈ filteredData D ts cs ds "") as Hin.
  { apply filteredData_elem. split; [exact Hr |].
    repeat split; try assumption. left. reflexivity. }
  rewrite Hnil in Hin. inversion Hin.
Qed.

Example filterOptions_mixedDates :
  dates (filterOptions IsoDate.isoGetTime mixedDates) =
  ["2020-01-01"; "2024-13-01"; "2024-01-01"].
Proof. reflexivity. Qed.

Example filterOptions_readableDates :
  dates (filterOptions IsoDate.isoGetTime readableDates) =
  ["2024-01-01"; "2022-06-15"; "2020-01-01"].
Proof. reflexivity. Qed.

(** C6, as stated, fails: with a date that the platform cannot read between
    two that it can, the date facets are not in descending order of their
    time values. *)
Lemma filterOptions_dates_not_descending :
  ~ datesDescending IsoDate.isoGetTime
      (dates (filterOptions IsoDate.isoGetTime mixedDates)).
Proof.
  intros H.
  specialize (H 0%nat 2%nat "2020-01-01" "2024-01-01" _ _
                ltac:(lia) eq_refl eq_refl eq_refl eq_refl).
  vm_compute in H. apply H. reflexivity.
Qed.

(** C6, amended.  For every dataset the three facet lists are
    duplicate-free and hold exactly the distinct non-empty values of their
    field; topics and companies are sorted by code units; when every
    non-empty date of the dataset has a time value, the dates come latest
    first; and selecting one returned value alone, with no other filter,
    leaves a non-empty filtered list. *)
Theorem filterOptions_facets (getTime : string -> option Z) (D : list TrendData) :
  (NoDup (topics (filterOptions getTime D)) /\
   NoDup (companies (filterOptions getTime D)) /\
   NoDup (dates (filterOptions getTime D))) /\
  ((forall v, v ∈ topics (filterOptions getTime D) <->
              v <> "" /\ exists r, r ∈ D /\ Topic r = v) /\
   (forall v, v ∈ companies (filterOptions getTime D) <->
              v <> "" /\ exists r, r ∈ D /\ Company r = v) /\
   (forall v, v ∈ dates (filterOptions getTime D) <->
              v <> "" /\ exists r, r ∈ D /\ Date r = v)) /\
  (StronglySorted String.le (topics (filterOptions getTime D)) /\
   StronglySorted String.le (companies (filterOptions getTime D))) /\
  ((forall r, r ∈ D -> Date r <> "" -> is_Some (getTime (Date r))) ->
   datesDescending getTime (dates (filterOptions getTime D))) /\
  ((forall v, v ∈ topics (filterOptions getTime D) ->
              filteredData D [v] [] [] "" <> []) /\
   (forall v, v ∈ companies (filterOptions getTime D) ->
              filteredData D [] [v] [] "" <> []) /\
   (forall v, v ∈ dates (filterOptions getTime D) ->
              filteredData D [] [] [v] "" <> [])).
Proof.
  rewrite filterOptions_fields; simpl.
  assert (Hmem : forall cmp f v,
             v ∈ Array_sort cmp (collectField f D []) <->
             v <> "" /\ exists r, r ∈ D /\ f r = v).
  { intros cmp f v. rewrite Array_sort_perm, collectField_elem.
    split; [intros [H | H]; [inversion H | exact H] | auto]. }
  assert (Hnodup : forall cmp f, NoDup (Array_sort cmp (collectField f D []))).
  { intros cmp f. rewrite Array_sort_perm.
    apply collectField_NoDup. constructor. }
  split; [auto |].
  split; [auto |].
  split; [split; apply defaultCompare_sorted |].
  split.
  - intros Hparse i j a b ta tb Hij Hi Hj Ha Hb.
    assert (Hs : StronglySorted (laterOrSame getTime)
                   (Array_sort (dateCompare getTime) (collectField Date D []))).
    { apply dateCompare_sorted. apply Forall_forall. intros v Hv.
      apply collectField_elem in Hv as [Hv | [Hne [r [Hr <-]]]]; [inversion Hv |].
      apply Hparse; assumption. }
    destruct (StronglySorted_lookup _ _ Hs i j a b Hij Hi Hj)
      as (ta' & tb' & Ha' & Hb' & Hle).
    congruence.
  - repeat split; intros v Hv; apply Hmem in Hv as [_ [r [Hr <-]]];
      apply (single_facet_nonempty D r); try assumption;
      try (left; reflexivity); right; apply list_elem_of_singleton; reflexivity.
Qed.

Lemma filterOptions_facets_witness :
  datesDescending IsoDate.isoGetTime
    (dates (filterOptions IsoDate.isoGetTime readableDates)).
Proof.
  apply (filterOptions_facets IsoDate.isoGetTime readableDates).
  intros r Hr Hne. unfold readableDates in Hr.
  repeat (apply elem_of_cons in Hr as [-> | Hr]);
    [eexists; reflexivity .. | exfalso; apply Hne; reflexivity | inversion Hr].
Defined.

(** ** Blank text *)

Lemma trimStart_allWhiteSpace (s : string) :
  allWhiteSpace (trimStart s) = allWhiteSpace s.
Proof.
  induction s as [|c s IH]; simpl; [reflexivity |].
  destruct (isWhiteSpace c) eqn:Hc; simpl; [exact IH | rewrite Hc; reflexivity].
Qed.

Lemma trimEnd_empty (s : string) :
  trimEnd s = "" <-> allWhiteSpace s = true.
Proof.
  induction s as [|c s IH]; simpl; [tauto |].
  destruct (trimEnd s) eqn:Ht.
  - destruct (isWhiteSpace c); simpl.
    + rewrite <- IH. tauto.
    + split; discriminate.
  - split; [discriminate |]. rewrite andb_true_iff. intros [_ Hs].
    apply IH in Hs. discriminate.
Qed.

Lemma trim_blank (s : string) :
  trim s = "" <-> allWhiteSpace s = true.
Proof.
  unfold trim. rewrite trimEnd_empty, trimStart_allWhiteSpace. reflexivity.
Qed.

Lemma truthy_trim (s : string) :
  negb (truthy (trim s)) = allWhiteSpace s.
Proof.
  unfold truthy. rewrite negb_involutive.
  destruct (String.eqb_spec (trim s) "") as [He | Hne].
  - symmetry. apply trim_blank. exact He.
  - destruct (allWhiteSpace s) eqn:Hw; [| reflexivity].
    apply trim_blank in Hw. contradiction.
Qed.

Example trim_example : trim "  [] " = "[]".
Proof. reflexivity. Qed.

(** ** Toggles *)

Lemma toggle_elem (v x : string) (s : list string) :
  x ∈ toggle v s <-> (x ∈ s /\ x <> v) \/ (x = v /\ v ∉ s).
Proof.
  unfold toggle. destruct (Array_includes s v) eqn:Hin.
  - apply Array_includes_spec in Hin.
    rewrite list_elem_of_In, filter_In, <- list_elem_of_In, negb_true_iff,
      String.eqb_neq.
    split; [tauto | intros [H | [_ H]]; [exact H | contradiction]].
  - assert (v ∉ s) as Hnot.
    { intros H. apply Array_includes_spec in H. congruence. }
    rewrite elem_of_app, list_elem_of_singleton. split.
    + intros [H | ->]; [left; split; [exact H | intros ->; contradiction] | right; auto].
    + intros [[H _] | [-> _]]; auto.
Qed.

Lemma toggle_twice_elem (v x : string) (s : list string) :
  x ∈ toggle v (toggle v s) <-> x ∈ s.
Proof.
  rewrite !toggle_elem.
  destruct (decide (x = v)) as [-> | Hne];
    destruct (decide (v ∈ s)) as [Hin | Hnin]; tauto.
Qed.

(** C10. One toggle of [v] puts [v] in when it was absent and takes it out
    when it was present, and leaves every other value as it was; two
    toggles of the same [v] leave a selection with the members of the one
    they started from.  The topic, company and date handlers all do
    this. *)
Theorem toggle_involution (v : string) (s : AppState) :
  (forall sel : list string,
      (v ∈ toggle v sel <-> v ∉ sel) /\
      (forall x, x <> v -> (x ∈ toggle v sel <-> x ∈ sel)) /\
      (forall x, x ∈ toggle v (toggle v sel) <-> x ∈ sel)) /\
  selectedTopics (handleTopicToggle v s) = toggle v (selectedTopics s) /\
  selectedCompanies (handleCompanyToggle v s) = toggle v (selectedCompanies s) /\
  selectedDates (handleDateToggle v s) = toggle v (selectedDates s) /\
  (forall x, x ∈ selectedTopics (handleTopicToggle v (handleTopicToggle v s))
             <-> x ∈ selectedTopics s) /\
  (forall x, x ∈ selectedCompanies (handleCompanyToggle v (handleCompanyToggle v s))
             <-> x ∈ selectedCompanies s) /\
  (forall x, x ∈ selectedDates (handleDateToggle v (handleDateToggle v s))
             <-> x ∈ selectedDates s).
Proof.
  split.
  { intros sel. split; [| split].
    - rewrite toggle_elem. destruct (decide (v ∈ sel)); tauto.
    - intros x Hne. rewrite toggle_elem. tauto.
    - intros x. apply toggle_twice_elem. }
  split; [reflexivity |]. split; [reflexivity |]. split; [reflexivity |].
  split; [| split]; intros x; simpl; apply toggle_twice_elem.
Qed.

Example toggle_twice_reorders :
  toggle "b" (toggle "b" ["a"; "b"; "c"; "b"]) = ["a"; "c"; "b"].
Proof. reflexivity. Qed.

(** ** Computations with random draws *)

Lemma always_bind {A B} (P : A -> Prop) (Q : B -> Prop) (t : rtree A)
    (f : A -> rtree B) :
  always P t -> (forall a, P a -> always Q (f a)) -> always Q (rbind t f).
Proof.
  induction t as [a | k IH]; simpl; intros Ht Hf.
  - apply Hf. exact Ht.
  - intros d. apply IH; [apply Ht | exact Hf].
Qed.

Lemma always_impl {A} (P Q : A -> Prop) (t : rtree A) :
  (forall a, P a -> Q a) -> always P t -> always Q t.
Proof.
  intros HPQ. induction t as [a | k IH]; simpl; intros Ht.
  - apply HPQ. exact Ht.
  - intros d. apply IH. apply Ht.
Qed.

Lemma always_run {A} (P : A -> Prop) (t : rtree A) (draws : nat -> Q) :
  always P t -> P (run t draws).
Proof.
  revert draws. induction t as [a | k IH]; simpl; intros draws Ht.
  - exact Ht.
  - apply IH. apply Ht.
Qed.

Lemma always_true {A} (t : rtree A) : always (fun _ => True) t.
Proof. induction t as [a | k IH]; simpl; auto. Qed.

(** A continuation that only returns does not draw. *)
Lemma run_bind_ret {A B} (t : rtree A) (f : A -> rtree B) (h : A -> B)
    (draws : nat -> Q) :
  (forall a, f a = Ret (h a)) -> run (rbind t f) draws = h (run t draws).
Proof.
  intros Hf. revert draws. induction t as [a | k IH]; intros draws; simpl.
  - rewrite Hf. reflexivity.
  - apply IH.
Qed.

Lemma everyAnswer_always {A R} (P : R -> Prop)
    (comparefn : A -> A -> rtree Sign) (t : asking A R) :
  everyAnswer P t -> always P (answering comparefn t).
Proof.
  induction t as [r | a b k IH]; simpl; intros Ht; [exact Ht |].
  eapply always_bind; [apply always_true |]. intros c _. apply IH. apply Ht.
Qed.

Lemma Array_sortR_perm {A} (cmp : A -> A -> rtree Sign) (l : list A) :
  always (fun l' => l' ≡ₚ l) (Array_sortR cmp l).
Proof. apply everyAnswer_always. apply engine_perm. Qed.

(** *** The sort when every comparison is answered alike *)

Lemma answeredBy_bind {A R S} (c : Sign) (t : asking A R)
    (f : R -> asking A S) :
  answeredBy c (abind t f) = answeredBy c (f (answeredBy c t)).
Proof. induction t as [r | a b k IH]; simpl; auto. Qed.

Lemma extendRun_constant {A} (c : Sign) (rest run : list A) (previous : A) :
  answeredBy c
    (extendRun (M := asking A) (@Answer A) (@abind A)
       (fun a b => Ask a b (fun c => Answer c)) (isNegative c) run previous
       rest) =
  (rev rest ++ run, []).
Proof.
  revert run previous; induction rest as [|current rest IH];
    intros run previous; simpl; [reflexivity |].
  rewrite Bool.eqb_reflx. rewrite IH. rewrite <- app_assoc. reflexivity.
Qed.

(** One run from end to end: the array is left as it is when no answer is
    negative, and turned round when every answer is. *)
Lemma engine_constant {A} (c : Sign) (l : list A) :
  answeredBy c (engine l) = if isNegative c then rev l else l.
Proof.
  unfold engine, sortWith. rewrite answeredBy_bind.
  destruct l as [|first [|second rest]];
    try (simpl; destruct (isNegative c); reflexivity).
  cbn [countAndMakeRun answeredBy abind].
  rewrite answeredBy_bind, extendRun_constant. simpl.
  destruct (isNegative c); simpl.
  - rewrite <- app_assoc. reflexivity.
  - rewrite rev_app_distr, rev_involutive. reflexivity.
Qed.

Lemma run_answering_constant {A R} (d : Q) (t : asking A R) :
  run (answering randomCompare t) (fun _ => d) = answeredBy (halfMinus d) t.
Proof.
  induction t as [r | a b k IH]; simpl; [reflexivity |]. apply IH.
Qed.

Lemma Array_sortR_constant {A} (d : Q) (l : list A) :
  run (Array_sortR randomCompare l) (fun _ => d) =
  if isNegative (halfMinus d) then rev l else l.
Proof.
  unfold Array_sortR. rewrite run_answering_constant. apply engine_constant.
Qed.

Lemma take_rev_differ {A} (l : list A) :
  NoDup l -> (200 < length l)%nat -> take 200 l <> take 200 (rev l).
Proof.
  intros Hnd Hlen Heq.
  assert (H0 : take 200 l !! 0%nat = take 200 (rev l) !! 0%nat)
    by (rewrite Heq; reflexivity).
  rewrite !lookup_take_lt in H0 by lia.
  rewrite rev_alt in H0. change (rev_append l []) with (reverse l) in H0.
  rewrite reverse_lookup in H0 by lia.
  destruct (l !! 0%nat) as [x |] eqn:Hx.
  - symmetry in H0.
    pose proof (NoDup_lookup l _ _ x Hnd Hx H0). lia.
  - apply lookup_ge_None in Hx. lia.
Qed.

(** ** Probabilities *)

Lemma Pr_bind_ret {A B} (E : B -> bool) (h : A -> B) (f : A -> rtree B)
    (t : rtree A) :
  (forall a, f a = Ret (h a)) ->
  forall p, Pr E (rbind t f) p <-> Pr (fun a => E (h a)) t p.
Proof.
  intros Hf. induction t as [a | k IH]; intros p; simpl.
  - rewrite Hf. split; intros H; inversion H; subst.
    + apply (Pr_Ret (fun a => E (h a)) a).
    + apply (Pr_Ret E (h a)).
  - split; intros H; inversion H as [| k' p' Hon]; subst; clear H; constructor.
    + remember (fun d => rbind (k d) f) as kk eqn:Hkk.
      induction Hon as [kk lo hi q Hlt Hcell | kk lo mid hi p1 p2 H1 H2 Ha IHa Hb IHb];
        subst.
      * apply PrOn_cell; [exact Hlt |]. intros d Hd1 Hd2.
        apply IH. apply Hcell; assumption.
      * apply (PrOn_cut _ _ lo mid hi); auto.
    + induction Hon as [k lo hi q Hlt Hcell | k lo mid hi p1 p2 H1 H2 Ha IHa Hb IHb].
      * apply (PrOn_cell E (fun d => rbind (k d) f)); [exact Hlt |].
        intros d Hd1 Hd2. apply IH. apply Hcell; assumption.
      * apply (PrOn_cut E (fun d => rbind (k d) f) lo mid hi); auto.
Qed.

Lemma halfMinus_low (d : Q) : (d < 1 # 2)%Q -> halfMinus d = Positive.
Proof.
  intros H. unfold halfMinus.
  destruct (Qcompare_spec d (1 # 2)) as [He | Hl | Hg]; [lra | reflexivity | lra].
Qed.

Lemma halfMinus_high (d : Q) : (1 # 2 < d)%Q -> halfMinus d = Negative.
Proof.
  intros H. unfold halfMinus.
  destruct (Qcompare_spec d (1 # 2)) as [He | Hl | Hg]; [lra | lra | reflexivity].
Qed.

Lemma answering_randomCompare {A R} (a b : A) (k : Sign -> asking A R) :
  answering randomCompare (Ask a b k) =
  Random (fun d => answering randomCompare (k (halfMinus d))).
Proof. reflexivity. Qed.

(** However the engine sorts, the chance of an event of the sorted array
    exists: each comparison falls to either side with one half. *)
Lemma Pr_answering {A R} (E : R -> bool) (t : asking A R) :
  exists p, Pr E (answering randomCompare t) p /\ (p == halves E t)%Q.
Proof.
  induction t as [r | a b k IH].
  - exists (if E r then 1 else 0)%Q. split; [constructor | reflexivity].
  - destruct (IH Positive) as (pP & HP & eP).
    destruct (IH Negative) as (pN & HN & eN).
    exists (((1 # 2) - 0) * pP + (1 - (1 # 2)) * pN)%Q. split.
    + rewrite answering_randomCompare. apply Pr_Random.
      apply (PrOn_cut _ _ 0 (1 # 2) 1); [reflexivity | reflexivity | |].
      * apply PrOn_cell; [reflexivity |]. intros d _ Hd.
        rewrite halfMinus_low by exact Hd. exact HP.
      * apply PrOn_cell; [reflexivity |]. intros d Hd _.
        rewrite halfMinus_high by exact Hd. exact HN.
    + simpl. rewrite eP, eN. ring.
Qed.

Lemma PrOn_halves {A} (E : A -> bool) (kk : Q -> rtree A) (tP tN : rtree A)
    (a b : Q) :
  (forall d, (d < 1 # 2)%Q -> kk d = tP) ->
  (forall d, (1 # 2 < d)%Q -> kk d = tN) ->
  (forall q, Pr E tP q -> (q == a)%Q) ->
  (forall q, Pr E tN q -> (q == b)%Q) ->
  forall lo hi p,
    PrOn E kk lo hi p ->
    (p == a * (below hi - below lo) + b * ((hi - below hi) - (lo - below lo)))%Q.
Proof.
  intros HkP HkN Ha Hb lo hi p Hon.
  induction Hon as [kk lo hi q Hlt Hcell | kk lo mid hi p1 p2 H1 H2 H3 IH3 H4 IH4].
  - unfold below.
    destruct (Qlt_le_dec hi (1 # 2)) as [Hhi | Hhi];
      destruct (Qlt_le_dec lo (1 # 2)) as [Hlo | Hlo].
    + assert (Hq : (q == a)%Q).
      { apply Ha. rewrite <- (HkP ((lo + hi) * (1 # 2))%Q) by lra.
        apply Hcell; lra. }
      rewrite Hq. ring.
    + lra.
    + assert (Hq : (q == a)%Q).
      { apply Ha. rewrite <- (HkP ((lo + (1 # 2)) * (1 # 2))%Q) by lra.
        apply Hcell; lra. }
      destruct (Qlt_le_dec (1 # 2) hi) as [Hhi' | Hhi'].
      * assert (Hq' : (q == b)%Q).
        { apply Hb. rewrite <- (HkN (((1 # 2) + hi) * (1 # 2))%Q) by lra.
          apply Hcell; lra. }
        rewrite <- Hq. rewrite <- Hq'. ring.
      * assert (Hhalf : (hi == 1 # 2)%Q) by lra.
        rewrite Hq, Hhalf. ring.
    + assert (Hq : (q == b)%Q).
      { apply Hb. rewrite <- (HkN ((lo + hi) * (1 # 2))%Q) by lra.
        apply Hcell; lra. }
      rewrite Hq. ring.
  - rewrite (IH3 HkP HkN), (IH4 HkP HkN). ring.
Qed.

(** And it is one number. *)
Lemma Pr_answering_unique {A R} (E : R -> bool) (t : asking A R) (p : Q) :
  Pr E (answering randomCompare t) p -> (p == halves E t)%Q.
Proof.
  revert p. induction t as [r | a b k IH]; intros p H.
  - inversion H; subst. reflexivity.
  - rewrite answering_randomCompare in H.
    inversion H as [| k' p' Hon]; subst.
    assert (HkP : forall d, (d < 1 # 2)%Q ->
              answering randomCompare (k (halfMinus d)) =
              answering randomCompare (k Positive))
      by (intros d Hd; rewrite halfMinus_low by exact Hd; reflexivity).
    assert (HkN : forall d, (1 # 2 < d)%Q ->
              answering randomCompare (k (halfMinus d)) =
              answering randomCompare (k Negative))
      by (intros d Hd; rewrite halfMinus_high by exact Hd; reflexivity).
    rewrite (PrOn_halves E
               (fun d => answering randomCompare (k (halfMinus d))) _ _ _ _
               HkP HkN (IH Positive) (IH Negative) 0 1 p Hon).
    unfold below. simpl.
    destruct (Qlt_le_dec 1 (1 # 2)) as [Habs | _]; [lra |].
    destruct (Qlt_le_dec 0 (1 # 2)) as [_ | Habs]; [| lra].
    ring.
Qed.

Lemma pow2_join (a b : nat) :
  (2 ^ Z.of_nat (S (a + b)) = 2 * 2 ^ Z.of_nat a * 2 ^ Z.of_nat b)%Z.
Proof.
  rewrite Nat2Z.inj_succ, Nat2Z.inj_add, Z.pow_succ_r, Z.pow_add_r by lia.
  ring.
Qed.

Lemma dyadic_Qeq (p q : Q) : (p == q)%Q -> dyadic q -> dyadic p.
Proof.
  intros Hpq (m & n & H). exists m, n. rewrite Hpq. exact H.
Qed.

Lemma halves_dyadic {A R} (E : R -> bool) (t : asking A R) :
  dyadic (halves E t).
Proof.
  induction t as [r | a b k IH]; simpl.
  - destruct (E r); [exists 1%Z, 0%nat | exists 0%Z, 0%nat]; reflexivity.
  - destruct (IH Positive) as (mP & nP & HP).
    destruct (IH Negative) as (mN & nN & HN).
    exists (mP * 2 ^ Z.of_nat nN + mN * 2 ^ Z.of_nat nP)%Z, (S (nP + nN)).
    rewrite pow2_join. rewrite inject_Z_plus, !inject_Z_mult.
    rewrite <- HP, <- HN. change (inject_Z 2) with 2%Q. field.
Qed.

Lemma pow2_mod3 (n : nat) :
  ((2 ^ Z.of_nat n) mod 3 = 1 \/ (2 ^ Z.of_nat n) mod 3 = 2)%Z.
Proof.
  induction n as [|n IH]; [left; reflexivity |].
  rewrite Nat2Z.inj_succ, Z.pow_succ_r by lia.
  rewrite Z.mul_mod by lia.
  destruct IH as [-> | ->]; [right | left]; reflexivity.
Qed.

(** 200/201 is no such fraction: 3 divides 201. *)
Lemma not_dyadic_200_201 : ~ dyadic (200 # 201).
Proof.
  intros (m & n & H). unfold Qeq in H. simpl in H.
  assert (Hmod : ((200 * 2 ^ Z.of_nat n) mod 3 = 0)%Z).
  { replace (200 * 2 ^ Z.of_nat n)%Z with (m * 67 * 3)%Z by lia.
    apply Z_mod_mult. }
  rewrite Z.mul_mod in Hmod by lia.
  destruct (pow2_mod3 n) as [Hp | Hp]; rewrite Hp in Hmod; discriminate.
Qed.

(** *** The sample that is sent *)

Lemma selectSubset_small (data : list TrendData) :
  (length data <= 200)%nat -> selectSubset data = Ret (data, data).
Proof.
  intros Hle. unfold selectSubset.
  destruct (Nat.ltb_spec 200 (length data)); [lia | reflexivity].
Qed.

Lemma selectSubset_large (data : list TrendData) :
  (200 < length data)%nat ->
  always (fun '(data', dataSubset) =>
            data' ≡ₚ data /\ dataSubset = take 200 data')
    (selectSubset data).
Proof.
  intros Hlt. unfold selectSubset.
  destruct (Nat.ltb_spec 200 (length data)); [| lia].
  eapply always_bind; [apply Array_sortR_perm |].
  intros sorted Hs. simpl. split; [exact Hs | reflexivity].
Qed.

(** What is sent is read off the sorted array. *)
Lemma sentSample_Pr (userQuery : string) (data : list TrendData)
    (E : list TrendData -> bool) (p : Q) :
  (200 < length data)%nat ->
  Pr E (sentSample userQuery data) p <->
  Pr (fun sorted => E (take 200 sorted)) (Array_sortR randomCompare data) p.
Proof.
  intros Hlen. unfold sentSample, findRelevantStats_request, selectSubset.
  destruct (Nat.ltb_spec 200 (length data)); [| lia].
  rewrite (Pr_bind_ret E (fun pair => sampleOf (snd pair)))
    by (intros [data' request]; reflexivity).
  rewrite (Pr_bind_ret _
             (fun pair =>
                (fst pair,
                 {| model := "gemini-2.5-flash";
                    contents := SearchPrompt userQuery (snd pair);
                    structuredResponse := true |})))
    by (intros [data' dataSubset]; reflexivity).
  rewrite (Pr_bind_ret _ (fun sorted => (sorted, take 200 sorted)))
    by reflexivity.
  reflexivity.
Qed.

Lemma sampleUnder_Pr
    (algorithm : list TrendData -> asking TrendData (list TrendData))
    (data : list TrendData) (E : list TrendData -> bool) (p : Q) :
  Pr E (sampleUnder algorithm data) p ->
  (p == halves (fun sorted => E (take 200 sorted)) (algorithm data))%Q.
Proof.
  unfold sampleUnder. intros H.
  apply (Pr_bind_ret E (take 200)) in H; [| reflexivity].
  apply Pr_answering_unique in H. exact H.
Qed.

(** Whatever algorithm the engine sorts with, the chance that a record is
    sent is a fraction whose denominator is a power of two. *)
Lemma sampleUnder_dyadic
    (algorithm : list TrendData -> asking TrendData (list TrendData))
    (data : list TrendData) (E : list TrendData -> bool) (p : Q) :
  Pr E (sampleUnder algorithm data) p -> dyadic p.
Proof.
  intros H. eapply dyadic_Qeq; [apply sampleUnder_Pr; exact H |].
  apply halves_dyadic.
Qed.

Lemma numberedRecord_0_in : numberedRecord 0 ∈ corpus201.
Proof. left. Qed.

Lemma sampleUnder_not_uniform
    (algorithm : list TrendData -> asking TrendData (list TrendData)) :
  ~ uniformSample corpus201 (sampleUnder algorithm corpus201).
Proof.
  intros Hu. destruct (Hu _ numberedRecord_0_in) as (p & Hp & Heq).
  apply sampleUnder_dyadic in Hp.
  apply not_dyadic_200_201. eapply dyadic_Qeq; [| exact Hp].
  symmetry. exact Heq.
Qed.

(** The chance that a record is sent exists, as the code and the modelled
    engine have it. *)
Lemma sentSample_chance (userQuery : string) (data : list TrendData)
    (E : list TrendData -> bool) :
  (200 < length data)%nat ->
  exists p, Pr E (sentSample userQuery data) p /\ dyadic p.
Proof.
  intros Hlen.
  destruct (Pr_answering (fun sorted => E (take 200 sorted)) (engine data))
    as (p & Hp & Heq).
  exists p. split.
  - apply sentSample_Pr; [exact Hlen | exact Hp].
  - eapply dyadic_Qeq; [exact Heq | apply halves_dyadic].
Qed.

(** *** A uniform sampler, to compare with *)

Lemma bound_lt (i j : nat) : (i < j)%nat -> (bound i < bound j)%Q.
Proof.
  intros Hij. unfold bound.
  assert (inject_Z (Z.of_nat i) < inject_Z (Z.of_nat j))%Q
    by (rewrite <- Zlt_Qlt; lia).
  lra.
Qed.

Lemma bound_succ (i : nat) : (bound (S i) == bound i + (1 # 201))%Q.
Proof.
  unfold bound. rewrite Nat2Z.inj_succ. unfold Z.succ.
  rewrite inject_Z_plus. change (inject_Z 1) with 1%Q. ring.
Qed.

Lemma floor_in_cell (i : nat) (d : Q) :
  (bound i < d)%Q -> (d < bound i + (1 # 201))%Q ->
  Z.to_nat (Qfloor (inject_Z 201 * d)) = i.
Proof.
  unfold bound. intros Hlo Hhi.
  set (x := (inject_Z 201 * d)%Q).
  assert (H1 : (inject_Z (Z.of_nat i) < x)%Q)
    by (unfold x; change (inject_Z 201) with 201%Q; lra).
  assert (H2 : (x < inject_Z (Z.of_nat i) + 1)%Q)
    by (unfold x; change (inject_Z 201) with 201%Q; lra).
  pose proof (Qfloor_le x) as H3. pose proof (Qlt_floor x) as H4.
  rewrite inject_Z_plus in H4. change (inject_Z 1) with 1%Q in H4.
  assert (H5 : (inject_Z (Qfloor x) < inject_Z (Z.of_nat i + 1))%Q)
    by (rewrite inject_Z_plus; change (inject_Z 1) with 1%Q; lra).
  assert (H6 : (inject_Z (Z.of_nat i) < inject_Z (Qfloor x + 1))%Q)
    by (rewrite inject_Z_plus; change (inject_Z 1) with 1%Q; lra).
  rewrite <- Zlt_Qlt in H5, H6.
  assert (Qfloor x = Z.of_nat i) as -> by lia.
  apply Nat2Z.id.
Qed.

Section Cells.
Context {A : Type} (E : A -> bool) (k : Q -> rtree A) (q : nat -> Q).
Hypothesis cell :
  forall i d, (i <= 200)%nat -> (bound i < d)%Q -> (d < bound i + (1 # 201))%Q ->
              Pr E (k d) (q i).

Lemma cells_PrOn (m : nat) :
  (m < 200)%nat -> PrOn E k 0 (bound (S m)) (cellSum q (S m)).
Proof.
  induction m as [|m IH]; intros Hm.
  - simpl cellSum. apply PrOn_cell; [reflexivity |]. intros d Hd1 Hd2.
    assert (H0 : (bound 0 == 0)%Q) by reflexivity.
    pose proof (bound_succ 0) as H1.
    apply (cell 0%nat); [lia | lra | lra].
  - change (cellSum q (S (S m)))
      with (cellSum q (S m) + (bound (S (S m)) - bound (S m)) * q (S m))%Q.
    apply (PrOn_cut E k 0 (bound (S m)) (bound (S (S m)))).
    + apply (bound_lt 0 (S m)). lia.
    + apply bound_lt. lia.
    + apply IH. lia.
    + apply PrOn_cell; [apply bound_lt; lia |]. intros d Hd1 Hd2.
      apply (cell (S m)); [lia | exact Hd1 |].
      rewrite bound_succ in Hd2. exact Hd2.
Qed.

Lemma cells_Pr :
  Pr E (Random k) (cellSum q 200 + (1 - bound 200) * q 200%nat)%Q.
Proof.
  apply Pr_Random. apply (PrOn_cut E k 0 (bound 200) 1).
  - reflexivity.
  - reflexivity.
  - apply (cells_PrOn 199). lia.
  - apply PrOn_cell; [reflexivity |]. intros d Hd1 Hd2.
    apply (cell 200%nat); [lia | exact Hd1 |].
    apply (Qlt_le_trans _ 1); [exact Hd2 |]. discriminate.
Qed.
End Cells.

Lemma cellSum_ext {q q' : nat -> Q} (m : nat) :
  (forall i, (i < m)%nat -> q i = q' i) -> cellSum q m = cellSum q' m.
Proof.
  induction m as [|m IH]; intros Hq; [reflexivity |].
  destruct m as [|m]; simpl.
  - rewrite (Hq 0%nat) by lia. reflexivity.
  - change (cellSum q (S m) + (bound (S (S m)) - bound (S m)) * q (S m) =
            cellSum q' (S m) + (bound (S (S m)) - bound (S m)) * q' (S m))%Q.
    rewrite IH by (intros i Hi; apply Hq; lia).
    rewrite (Hq (S m)) by lia. reflexivity.
Qed.

Lemma corpus201_lookup (n j : nat) :
  corpus201 !! n = Some (numberedRecord j) <-> n = j /\ (n < 201)%nat.
Proof.
  unfold corpus201.
  change (List.map numberedRecord (seq 0 201))
    with (numberedRecord <$> seq 0 201).
  rewrite list_lookup_fmap_Some. split.
  - intros (i & Heq & Hi). apply lookup_seq in Hi as [-> Hn].
    assert (pretty j = pretty (0 + n)%nat) as Hp
      by (exact (f_equal stat Heq)).
    apply (inj pretty) in Hp. lia.
  - intros [-> Hn]. exists j. split; [reflexivity |].
    apply lookup_seq. lia.
Qed.

Lemma cellSum_step (q : nat -> Q) (m : nat) :
  (cellSum q (S m) == cellSum q m + (1 # 201) * q m)%Q.
Proof.
  destruct m as [|m].
  - simpl. pose proof (bound_succ 0) as H1.
    assert (H0 : (bound 0 == 0)%Q) by reflexivity.
    rewrite H1, H0. ring.
  - change (cellSum q (S (S m)))
      with (cellSum q (S m) + (bound (S (S m)) - bound (S m)) * q (S m))%Q.
    rewrite (bound_succ (S m)). ring.
Qed.

(** With every cell but cell [j] counting 1, the first [m] cells weigh
    their number, less one when cell [j] is among them. *)
Lemma cellSum_count (j m : nat) :
  (cellSum (fun i => if negb (Nat.eqb i j) then 1 else 0) m ==
   (if (j <? m)%nat then inject_Z (Z.of_nat m) - 1 else inject_Z (Z.of_nat m))
   * (1 # 201))%Q.
Proof.
  induction m as [|m IH]; [reflexivity |].
  rewrite cellSum_step, IH.
  rewrite Nat2Z.inj_succ. unfold Z.succ. rewrite inject_Z_plus.
  change (inject_Z 1) with 1%Q.
  destruct (Nat.ltb_spec j m) as [H1 | H1];
    destruct (Nat.ltb_spec j (S m)) as [H2 | H2];
    destruct (Nat.eqb_spec m j) as [H3 | H3]; cbn [negb]; try lia; ring.
Qed.

(** Leaving out the record at place [i] leaves out that record only. *)
Lemma inSample_omit (i j : nat) :
  (j <= 200)%nat ->
  inSample (numberedRecord j) (omit i corpus201) = negb (Nat.eqb i j).
Proof.
  intros Hj. unfold inSample, omit.
  destruct (Nat.eqb_spec i j) as [-> | Hne]; cbn [negb].
  - apply bool_decide_eq_false. rewrite elem_of_app. intros [H | H].
    + apply elem_of_take in H as (n & Hn & Hlt).
      apply corpus201_lookup in Hn. lia.
    + apply list_elem_of_lookup_1 in H as [n Hn].
      rewrite lookup_drop in Hn. apply corpus201_lookup in Hn. lia.
  - apply bool_decide_eq_true. rewrite elem_of_app.
    destruct (Nat.lt_ge_cases j i) as [Hlt | Hge].
    + left. apply elem_of_take. exists j. split; [| exact Hlt].
      apply corpus201_lookup. lia.
    + right. apply (list_elem_of_lookup_2 _ (j - S i)).
      rewrite lookup_drop. apply corpus201_lookup. lia.
Qed.

(** Uniformity can be had: leaving out one record, picked by one draw,
    sends each record of the corpus with chance 200/201. *)
Lemma leaveOneOut_uniform : uniformSample corpus201 (leaveOneOut corpus201).
Proof.
  intros x Hx.
  set (q := fun i => (if inSample x (omit i corpus201) then 1 else 0)%Q).
  exists (cellSum q 200 + (1 - bound 200) * q 200%nat)%Q. split.
  - apply (cells_Pr (inSample x)
             (fun d =>
                Ret (omit (Z.to_nat
                             (Qfloor (inject_Z (Z.of_nat (length corpus201)) * d)))
                       corpus201)) q).
    intros i d Hi Hd1 Hd2.
    change (Z.of_nat (length corpus201)) with 201%Z.
    rewrite (floor_in_cell i d Hd1 Hd2). apply Pr_Ret.
  - change (Pos.of_nat (length corpus201)) with 201%positive.
    apply list_elem_of_lookup_1 in Hx as [j Hj].
    assert (Hlt : (j < 201)%nat) by (apply lookup_lt_Some in Hj; exact Hj).
    assert (x = numberedRecord j) as ->.
    { pose proof (proj2 (corpus201_lookup j j) (conj eq_refl Hlt)) as Hj'.
      congruence. }
    set (q' := fun i => (if negb (Nat.eqb i j) then 1 else 0)%Q).
    rewrite (cellSum_ext (q' := q') 200)
      by (intros i Hi; unfold q, q'; rewrite inSample_omit by lia; reflexivity).
    unfold q at 1. rewrite inSample_omit by lia. unfold q'.
    rewrite (cellSum_count j 200). unfold bound.
    assert (H1 : (inject_Z (Z.of_nat 200) == 200)%Q) by reflexivity.
    destruct (Nat.ltb_spec j 200) as [Hj' | Hj'];
      destruct (Nat.eqb_spec 200 j) as [He | He]; cbn [negb]; try lia; lra.
Qed.

(** ** The AI service *)

Lemma corpus201_NoDup : NoDup corpus201.
Proof.
  apply NoDup_alt. intros i j x Hi Hj.
  assert (Hlt : (i < 201)%nat) by (apply lookup_lt_Some in Hi; exact Hi).
  pose proof (proj2 (corpus201_lookup i i) (conj eq_refl Hlt)) as Hi'.
  assert (x = numberedRecord i) as -> by congruence.
  apply corpus201_lookup in Hj. lia.
Qed.

Lemma corpus201_length : length corpus201 = 201%nat.
Proof. reflexivity. Qed.

(** The first 200 of a rearrangement of more than 200 records. *)
Lemma first200 (data sorted : list TrendData) :
  (200 < length data)%nat -> sorted ≡ₚ data ->
  length (take 200 sorted) = 200%nat /\
  take 200 sorted ⊆+ data /\
  (NoDup data -> NoDup (take 200 sorted)).
Proof.
  intros Hlen Hperm. split; [| split].
  - rewrite length_take_le; [reflexivity |]. rewrite Hperm. lia.
  - rewrite <- Hperm. apply sublist_submseteq, sublist_take.
  - intros Hnd. assert (NoDup sorted) as Hnd' by (rewrite Hperm; exact Hnd).
    exact (sublist_NoDup _ _ Hnd' (sublist_take sorted 200)).
Qed.

Lemma findRelevantStats_request_run (userQuery : string)
    (data : list TrendData) (draws : nat -> Q) :
  (200 < length data)%nat ->
  run (findRelevantStats_request userQuery data) draws =
  (run (Array_sortR randomCompare data) draws,
   searchRequest userQuery
     (take 200 (run (Array_sortR randomCompare data) draws))).
Proof.
  intros Hlen. unfold findRelevantStats_request, selectSubset.
  destruct (Nat.ltb_spec 200 (length data)); [| lia].
  rewrite (run_bind_ret _ _
             (fun pair => (fst pair, searchRequest userQuery (snd pair))))
    by (intros [data' dataSubset]; reflexivity).
  rewrite (run_bind_ret _ _ (fun sorted => (sorted, take 200 sorted)))
    by reflexivity.
  reflexivity.
Qed.

Lemma sentSample_run (userQuery : string) (data : list TrendData)
    (draws : nat -> Q) :
  (200 < length data)%nat ->
  run (sentSample userQuery data) draws =
  take 200 (run (Array_sortR randomCompare data) draws).
Proof.
  intros Hlen. unfold sentSample.
  rewrite (run_bind_ret _ _ (fun pair => sampleOf (snd pair)))
    by (intros [data' request]; reflexivity).
  rewrite findRelevantStats_request_run by exact Hlen. reflexivity.
Qed.

Lemma findRelevantStats_request_small (userQuery : string)
    (data : list TrendData) :
  (length data <= 200)%nat ->
  findRelevantStats_request userQuery data =
  Ret (data, searchRequest userQuery data).
Proof.
  intros Hlen. unfold findRelevantStats_request.
  rewrite selectSubset_small by exact Hlen. reflexivity.
Qed.




(** X20.  What is sent, whatever the draws.  With 200 records or fewer the
    request carries the whole corpus, in its order, and the corpus is left
    as it was.  With 201 or more the request carries the first 200 records
    of the array as the call leaves it, which holds the records it held:
    exactly 200 records, taken from 200 different places of the corpus. *)
Theorem findRelevantStats_request_sample (userQuery : string)
    (data : list TrendData) :
  ((length data <= 200)%nat ->
   findRelevantStats_request userQuery data =
   Ret (data, {| model := "gemini-2.5-flash";
                 contents := SearchPrompt userQuery data;
                 structuredResponse := true |})) /\
  ((200 < length data)%nat ->
   always (fun '(data', request) =>
             exists sample,
               contents request = SearchPrompt userQuery sample /\
               length sample = 200%nat /\
               sample ⊆+ data /\
               (NoDup data -> NoDup sample) /\
               data' ≡ₚ data /\
               sample = take 200 data')
     (findRelevantStats_request userQuery data)).
Proof.
  split; intros Hlen.
  - apply findRelevantStats_request_small. exact Hlen.
  - unfold findRelevantStats_request.
    eapply always_bind; [apply selectSubset_large; exact Hlen |].
    intros [data' dataSubset] [Hperm ->]. simpl.
    exists (take 200 data'). split; [reflexivity |].
    destruct (first200 data data' Hlen Hperm) as (H1 & H2 & H3).
    auto 10.
Qed.

Lemma findRelevantStats_request_sample_witness :
  findRelevantStats_request "phishing" [phishingRecord] =
  Ret ([phishingRecord],
       {| model := "gemini-2.5-flash";
          contents := SearchPrompt "phishing" [phishingRecord];
          structuredResponse := true |}) /\
  always (fun '(data', request) =>
            exists sample,
              contents request = SearchPrompt "ransomware" sample /\
              length sample = 200%nat /\
              sample ⊆+ corpus201 /\
              (NoDup corpus201 -> NoDup sample) /\
              data' ≡ₚ corpus201 /\
              sample = take 200 data')
    (findRelevantStats_request "ransomware" corpus201).
Proof.
  split.
  - apply (findRelevantStats_request_sample "phishing" [phishingRecord]).
    simpl. lia.
  - apply (findRelevantStats_request_sample "ransomware" corpus201).
    rewrite corpus201_length. lia.
Defined.

(** C4, as stated, fails.  A call that is fulfilled with a response that
    carries no text ends in the error, whatever the parser: nothing was
    rejected, and nothing was given to the parser. *)
Lemma findRelevantStats_without_text :
  FulfilledWithoutText <> Rejected /\
  findRelevantStats_response arrayParser FulfilledWithoutText =
  Thrown searchFailure /\
  findRelevantStats_response arrayParser FulfilledWithoutText <> Returned [].
Proof. repeat split; discriminate. Qed.

(** C4, amended.  The search returns the empty list when the text of the
    answer is empty or blank, and when it parses to a value that is not an
    array; it returns the items of an array; it throws, always with the
    same message, when the call to the model is rejected, when the answer
    carries no text, and when parsing the text throws, and in no other
    case.  A whole call sends one request and ends as the answer to that
    request says. *)
Theorem findRelevantStats_response_cases
    (JSON_parse : string -> option JSON)
    (generateContent : Request -> Response)
    (userQuery : string) (data : list TrendData) :
  (forall text,
      allWhiteSpace text = true ->
      findRelevantStats_response JSON_parse (Fulfilled text) = Returned []) /\
  (forall text v,
      JSON_parse (trim text) = Some v -> isArray v = false ->
      findRelevantStats_response JSON_parse (Fulfilled text) = Returned []) /\
  (forall text items,
      allWhiteSpace text = false -> JSON_parse (trim text) = Some (JArray items) ->
      findRelevantStats_response JSON_parse (Fulfilled text) = Returned items) /\
  (forall response message,
      findRelevantStats_response JSON_parse response = Thrown message ->
      message = searchFailure /\
      (response = Rejected \/ response = FulfilledWithoutText \/
       exists text, response = Fulfilled text /\ allWhiteSpace text = false /\
                    JSON_parse (trim text) = None)) /\
  findRelevantStats_response JSON_parse Rejected = Thrown searchFailure /\
  findRelevantStats_response JSON_parse FulfilledWithoutText =
  Thrown searchFailure /\
  (forall text,
      allWhiteSpace text = false -> JSON_parse (trim text) = None ->
      findRelevantStats_response JSON_parse (Fulfilled text) =
      Thrown searchFailure) /\
  always (fun '(_, requests, outcome) =>
            exists request,
              requests = [request] /\
              outcome = findRelevantStats_response JSON_parse
                          (generateContent request))
    (findRelevantStats JSON_parse generateContent userQuery data).
Proof.
  unfold findRelevantStats_response.
  split; [| split; [| split; [| split; [| split; [| split; [| split]]]]]].
  - intros text Hblank. rewrite truthy_trim, Hblank. reflexivity.
  - intros text v Hparse Hv. rewrite truthy_trim.
    destruct (allWhiteSpace text); [reflexivity |]. simpl.
    rewrite Hparse, Hv. reflexivity.
  - intros text items Hblank Hparse. rewrite truthy_trim, Hblank. simpl.
    rewrite Hparse. reflexivity.
  - intros [| text |] message; [intros [= <-]; auto | | intros [= <-]; auto].
    rewrite truthy_trim. destruct (allWhiteSpace text) eqn:Hblank;
      [discriminate |]. simpl.
    destruct (JSON_parse (trim text)) as [v |] eqn:Hparse.
    + destruct v; simpl; discriminate.
    + intros [= <-]. split; [reflexivity |]. right. right. exists text. auto.
  - reflexivity.
  - reflexivity.
  - intros text Hblank Hparse. rewrite truthy_trim, Hblank. simpl.
    rewrite Hparse. reflexivity.
  - unfold findRelevantStats.
    eapply always_bind; [apply always_true |].
    intros [data' request] _. simpl. exists request. auto.
Qed.

(** *** The replacer of the summary prompt *)

Lemma withoutReason_clean (v : JSON) :
  hasMember "reason" (withoutReason v) = false.
Proof.
  induction v as [| b | n | negative | s | items IH | members IH]
    using JSON_deep_ind; try reflexivity.
  - simpl. induction IH as [| x l Hx _ IHl]; simpl; [reflexivity |].
    rewrite Hx, IHl. reflexivity.
  - simpl. induction IH as [| [key value] l Hx _ IHl]; simpl; [reflexivity |].
    destruct (String.eqb key "reason") eqn:Hkey; [exact IHl |].
    simpl in *. rewrite Hkey, Hx, IHl. reflexivity.
Qed.

Lemma withoutReason_finite (v : JSON) : allFinite (withoutReason v) = true.
Proof.
  induction v as [| b | n | negative | s | items IH | members IH]
    using JSON_deep_ind; try reflexivity.
  - simpl. induction IH as [| x l Hx _ IHl]; simpl; [reflexivity |].
    rewrite Hx, IHl. reflexivity.
  - simpl. induction IH as [| [key value] l Hx _ IHl]; simpl; [reflexivity |].
    destruct (String.eqb key "reason") eqn:Hkey; [exact IHl |].
    simpl in *. rewrite Hx, IHl. reflexivity.
Qed.

Lemma withoutReason_unchanged (v : JSON) :
  hasMember "reason" v = false -> allFinite v = true -> withoutReason v = v.
Proof.
  induction v as [| b | n | negative | s | items IH | members IH]
    using JSON_deep_ind;
    try reflexivity; simpl; intros Hclean Hfinite; try discriminate; f_equal.
  - induction IH as [| x l Hx _ IHl]; simpl in *; [reflexivity |].
    apply orb_false_elim in Hclean as [Hx' Hl].
    apply andb_prop in Hfinite as [Hfx Hfl].
    rewrite (Hx Hx' Hfx), (IHl Hl Hfl). reflexivity.
  - induction IH as [| [key value] l Hx _ IHl]; simpl in *; [reflexivity |].
    apply orb_false_elim in Hclean as [Hkv Hl].
    apply orb_false_elim in Hkv as [Hkey Hvalue].
    apply andb_prop in Hfinite as [Hfx Hfl].
    rewrite Hkey, (Hx Hvalue Hfx), (IHl Hl Hfl). reflexivity.
Qed.

(** The replacer writes what [written] says. *)
Lemma withoutReason_is_written (v : JSON) : written v (withoutReason v).
Proof.
  induction v as [| b | n | negative | s | items IH | members IH]
    using JSON_deep_ind; try constructor.
  - induction IH as [| x l Hx _ IHl]; simpl; constructor; assumption.
  - induction IH as [| [key value] l Hx _ IHl]; [constructor |].
    destruct (String.eqb_spec key "reason") as [-> | Hkey].
    + apply membersWritten_skip. exact IHl.
    + apply membersWritten_keep; assumption.
Qed.

Lemma itemsWritten_one (items items' : list JSON) :
  Forall (fun x => forall w, written x w -> w = withoutReason x) items ->
  Forall2 written items items' -> items' = List.map withoutReason items.
Proof.
  intros HF H. induction H as [| x y l l' Hxy Hl IHl]; [reflexivity |].
  apply Forall_cons in HF as [Hx HF]. simpl.
  rewrite <- (Hx y Hxy), <- (IHl HF). reflexivity.
Qed.

Lemma membersWritten_one (members members' : list (string * JSON)) :
  Forall (fun m => forall w, written (snd m) w -> w = withoutReason (snd m))
    members ->
  membersWritten written members members' ->
  JObject members' = withoutReason (JObject members).
Proof.
  intros HF H.
  induction H as [| value l l' Hl IHl | key value value' l l' Hkey Hv Hl IHl].
  - reflexivity.
  - apply Forall_cons in HF as [_ HF]. rewrite (IHl HF). reflexivity.
  - apply Forall_cons in HF as [Hx HF]. simpl in Hx.
    specialize (IHl HF). simpl in IHl. injection IHl as IHl.
    simpl. destruct (String.eqb_spec key "reason") as [Heq | _];
      [contradiction |].
    rewrite <- (Hx value' Hv), <- IHl. reflexivity.
Qed.

(** And [written] says no more than one thing. *)
Lemma written_is_withoutReason (v w : JSON) :
  written v w -> w = withoutReason v.
Proof.
  revert w.
  induction v as [| b | n | negative | s | items IH | members IH]
    using JSON_deep_ind; intros w Hw; inversion Hw; subst; try reflexivity.
  - simpl. f_equal. apply itemsWritten_one; assumption.
  - apply membersWritten_one; assumption.
Qed.

Lemma withoutReason_aiResult (r : TrendData) (reason : string) :
  withoutReason (aiResult r reason) = recordJson r.
Proof. reflexivity. Qed.

Example withoutReason_aiResult_phishing :
  withoutReason (aiResult phishingRecord "it is about phishing") =
  JObject [("Date", JString "2024-01-01"); ("Company", JString "Acme");
           ("Topic", JString "Phishing"); ("Technology", JString "Email");
           ("Source", JString "http://x");
           ("stat", JString "60% of breaches involve phishing");
           ("ResourceName", JString "Report A")].
Proof. reflexivity. Qed.

Lemma map_written (items : list JSON) :
  Forall2 written items (List.map withoutReason items).
Proof.
  induction items as [| x l IH]; simpl; constructor;
    [apply withoutReason_is_written | exact IH].
Qed.

Lemma map_aiResult (results : list (TrendData * string)) :
  List.map withoutReason
    (List.map (fun result => aiResult (fst result) (snd result)) results) =
  List.map recordJson (List.map fst results).
Proof.
  induction results as [| [r reason] l IH]; [reflexivity |].
  cbn [List.map fst snd]. rewrite withoutReason_aiResult, IH. reflexivity.
Qed.

Lemma generateSummary_request_large (data : list JSON) :
  (50 < length data)%nat ->
  generateSummary_request data =
  Some (summaryRequest (JArray (List.map withoutReason (take 50 data)))).
Proof.
  intros Hlen. unfold generateSummary_request.
  destruct (Nat.eqb_spec (length data) 0) as [H0 | _]; [lia |].
  destruct (Nat.ltb_spec 50 (length data)) as [_ | Hle]; [| lia].
  reflexivity.
Qed.

(** C5.  Given more than 50 records, the request of [generateSummary]
    carries the first 50 of them, in their order, each as [written] has
    it: with every member of the record but [reason] in its place.  For
    AI results, which are the fields of a record and a reason, the request
    carries the first 50 records themselves.  And whatever the records, no
    object of the value that is written into the prompt has a member named
    [reason]. *)
Theorem generateSummary_request_payload
    (generateContent : Request -> Response) (data : list JSON) :
  ((50 < length data)%nat ->
   exists items,
     generateSummary_request data = Some (summaryRequest (JArray items)) /\
     fst (generateSummary generateContent data) =
     [summaryRequest (JArray items)] /\
     Forall2 written (take 50 data) items /\
     length items = 50%nat /\
     take 50 data `prefix_of` data /\
     forall results,
       data = List.map (fun result => aiResult (fst result) (snd result))
                results ->
       items = List.map recordJson (List.map fst (take 50 results))) /\
  (forall request payload,
      In request (fst (generateSummary generateContent data)) ->
      contents request = SummaryPrompt payload ->
      hasMember "reason" payload = false).
Proof.
  split.
  - intros Hlen. exists (List.map withoutReason (take 50 data)).
    pose proof (generateSummary_request_large data Hlen) as Hrequest.
    unfold generateSummary. rewrite Hrequest.
    split; [reflexivity |]. split; [reflexivity |].
    split; [apply map_written |].
    split; [rewrite length_map; apply length_take_le; lia |].
    split; [exists (drop 50 data); symmetry; apply take_drop |].
    intros results ->.
    change (@take JSON) with (@firstn JSON).
    rewrite firstn_map. change (@firstn (TrendData * string)) with (@take (TrendData * string)).
    apply map_aiResult.
  - intros request payload Hin Hc.
    unfold generateSummary, generateSummary_request in Hin.
    destruct (length data =? 0)%nat; simpl in Hin; [contradiction |].
    destruct Hin as [<- | []]. simpl in Hc. injection Hc as <-.
    apply (withoutReason_clean (JArray _)).
Qed.

Lemma generateSummary_request_payload_witness :
  exists items,
    generateSummary_request fiftyOneResults =
    Some (summaryRequest (JArray items)) /\
    fst (generateSummary (fun _ => Rejected) fiftyOneResults) =
    [summaryRequest (JArray items)] /\
    Forall2 written (take 50 fiftyOneResults) items /\
    length items = 50%nat /\
    items = List.map recordJson (List.map fst (take 50 fiftyOneRecords)).
Proof.
  destruct (generateSummary_request_payload (fun _ => Rejected) fiftyOneResults)
    as [Hlarge _].
  destruct Hlarge as (items & H1 & H2 & H3 & H4 & _ & H5);
    [vm_compute; lia |].
  exists items. repeat split; try assumption.
  apply H5. reflexivity.
Defined.

(** C8.  [generateSummary] of no records returns the fixed text, as a
    normal return, and sends nothing to the model. *)
Theorem generateSummary_empty (generateContent : Request -> Response) :
  generateSummary generateContent [] =
  ([], Returned "No data available to generate a summary.").
Proof. reflexivity. Qed.

(** ** The view coordinator *)

(** C9.  A submission with a blank query (empty, or white space only), or
    while a search is in flight, leaves the state as it is, the rendered
    view with it, and sends nothing to the model. *)
Theorem handleAiSearch_ignored (parse : string -> option JSON) (s : AppState) :
  allWhiteSpace (searchQuery s) = true \/ isSearching s = true ->
  step parse s AiSearch = Ret (s, []) /\
  always (fun '(s', requests) =>
            s' = s /\ activeView s' = activeView s /\ requests = [])
    (step parse s AiSearch).
Proof.
  intros H.
  assert (step parse s AiSearch = Ret (s, [])) as ->.
  { simpl. unfold handleAiSearch_begin. rewrite truthy_trim.
    destruct H as [-> | ->]; [reflexivity | rewrite orb_true_r; reflexivity]. }
  simpl. auto.
Qed.

Lemma handleAiSearch_ignored_witness :
  step noParser blankQueryState AiSearch = Ret (blankQueryState, []).
Proof.
  apply (handleAiSearch_ignored noParser blankQueryState).
  left. reflexivity.
Defined.

(** An accepted submission sends one request and shows the searching
    view. *)
Lemma handleAiSearch_accepted (parse : string -> option JSON) (s : AppState) :
  allWhiteSpace (searchQuery s) = false -> isSearching s = false ->
  always (fun '(s', requests) =>
            isSearching s' = true /\ selectedStat s' = None /\
            aiResults s' = [] /\ aiError s' = None /\
            exists request, requests = [request])
    (step parse s AiSearch).
Proof.
  intros Hq Hs. simpl. unfold handleAiSearch_begin.
  rewrite truthy_trim, Hq, Hs. simpl.
  eapply always_bind; [apply always_true |].
  intros [data' request] _. simpl. eauto 10.
Qed.

(** C7, as stated, fails: with the detail overlay open on a record and a
    query typed in, submitting the search closes the overlay. *)
Lemma detail_closed_by_search :
  detailOpen detailState = true /\
  exists s' requests,
    step noParser detailState AiSearch = Ret (s', requests) /\
    detailOpen s' = false.
Proof.
  split; [reflexivity |]. eexists. eexists. split; reflexivity.
Qed.

(** C7, amended.  While the detail overlay is open it closes on the close
    action (close button, backdrop, Escape) and on a submission of the AI
    search that is accepted (query not blank, no search in flight), and on
    nothing else: toggling a facet, resetting the filters, typing a term or
    a query, clearing the AI search, an ignored submission, the answers of
    pending calls and the summary actions leave it open. *)
Theorem detail_closes_only_on (parse : string -> option JSON) (s : AppState)
    (e : Event) :
  detailOpen s = true ->
  always (fun '(s', _) =>
            detailOpen s' = false <->
            (e = CloseModal \/
             (e = AiSearch /\ allWhiteSpace (searchQuery s) = false /\
              isSearching s = false)))
    (step parse s e).
Proof.
  intros Hopen. unfold detailOpen in *.
  destruct e; simpl;
    try (split; [intros H; congruence | intros [H | [H _]]; discriminate]).
  - (* DataSettled *)
    destruct fetched; simpl;
      (split; [intros H; congruence | intros [H | [H _]]; discriminate]).
  - (* AiSearch *)
    unfold handleAiSearch_begin. rewrite truthy_trim.
    destruct (allWhiteSpace (searchQuery s)) eqn:Hq; simpl.
    + split; [intros H; congruence | intros [H | (_ & H & _)]; discriminate].
    + destruct (isSearching s) eqn:Hs; simpl.
      * split; [intros H; congruence | intros [H | (_ & _ & H)]; discriminate].
      * eapply always_bind; [apply always_true |].
        intros [data' request] _. simpl. split; auto.
  - (* AiSearchSettled *)
    unfold handleAiSearch_settle.
    destruct (findRelevantStats_response parse response); simpl;
      (split; [intros H; congruence | intros [H | [H _]]; discriminate]).
  - (* CloseModal *)
    split; auto.
  - (* GenerateSummary *)
    unfold handleGenerateSummary_begin.
    destruct (length (aiResults s) =? 0)%nat; simpl;
      [split; [intros H; congruence | intros [H | [H _]]; discriminate] |].
    destruct (generateSummary_request (aiResults s)); simpl;
      (split; [intros H; congruence | intros [H | [H _]]; discriminate]).
  - (* SummarySettled *)
    unfold handleGenerateSummary_settle.
    destruct (generateSummary_response response); simpl;
      (split; [intros H; congruence | intros [H | [H _]]; discriminate]).
Qed.

Lemma detail_closes_only_on_witness :
  always (fun '(s', _) =>
            detailOpen s' = false <->
            (TopicToggle "Phishing" = CloseModal \/
             (TopicToggle "Phishing" = AiSearch /\
              allWhiteSpace (searchQuery detailState) = false /\
              isSearching detailState = false)))
    (step noParser detailState (TopicToggle "Phishing")).
Proof.
  apply (detail_closes_only_on noParser detailState (TopicToggle "Phishing")).
  reflexivity.
Defined.

(** ** The dataset under the operations of the session *)

(** Every event but the answer of the loader and the submission of a
    search leaves [allData] alone, and so does a submission over at most
    200 records. *)
Lemma allData_frame (parse : string -> option JSON) (s : AppState) (e : Event) :
  (forall fetched, e <> DataSettled fetched) ->
  e <> AiSearch \/ (length (allData s) <= 200)%nat ->
  always (fun '(s', _) => allData s' = allData s) (step parse s e).
Proof.
  intros Hload Hsearch. destruct e; simpl; try reflexivity.
  - exfalso. apply (Hload fetched). reflexivity.
  - destruct Hsearch as [Hne | Hlen]; [congruence |].
    unfold handleAiSearch_begin.
    destruct (negb (truthy (trim (searchQuery s))) || isSearching s);
      [reflexivity |].
    unfold findRelevantStats_request.
    rewrite selectSubset_small by exact Hlen. reflexivity.
  - unfold handleAiSearch_settle.
    destruct (findRelevantStats_response parse response); reflexivity.
  - unfold handleGenerateSummary_begin.
    destruct (length (aiResults s) =? 0)%nat; [reflexivity |].
    destruct (generateSummary_request (aiResults s)); reflexivity.
  - unfold handleGenerateSummary_settle.
    destruct (generateSummary_response response); reflexivity.
Qed.

(** An accepted search over more than 200 records leaves [allData] as
    the sort leaves it: turned round, when every draw is above one
    half. *)
Lemma allData_after_search (parse : string -> option JSON) (s : AppState)
    (draws : nat -> Q) :
  allWhiteSpace (searchQuery s) = false -> isSearching s = false ->
  (200 < length (allData s))%nat ->
  allData (fst (run (step parse s AiSearch) draws)) =
  run (Array_sortR randomCompare (allData s)) draws.
Proof.
  intros Hq Hs Hlen. simpl. unfold handleAiSearch_begin.
  rewrite truthy_trim, Hq, Hs. simpl.
  rewrite (run_bind_ret _ _
             (fun pair =>
                (allDataSortedInPlace (fst pair)
                   (handleClearSummary
                      (setSelectedStat None
                         (setAiResults []
                            (setAiError None (setIsSearching true s))))),
                 [snd pair])))
    by (intros [data' request]; reflexivity).
  rewrite findRelevantStats_request_run by exact Hlen. reflexivity.
Qed.

(** C2, at the failing input.  With 201 records loaded and every draw of
    [Math.random] equal to 0.75, submitting a search leaves [allData] in
    the reverse of the order it was loaded in: the comparator answers
    -0.25 to every question, the engine reads the array as one descending
    run and turns it round. *)
Theorem allData_reordered_by_search :
  allData loadedState = corpus201 /\
  allData (fst (run (step noParser loadedState AiSearch) highDraws)) =
  rev corpus201 /\
  rev corpus201 <> corpus201.
Proof.
  split; [reflexivity |]. split.
  - rewrite allData_after_search;
      [| reflexivity | reflexivity
       | change (allData loadedState) with corpus201;
         rewrite corpus201_length; lia].
    unfold highDraws. rewrite Array_sortR_constant. reflexivity.
  - intros Heq.
    apply (take_rev_differ corpus201 corpus201_NoDup);
      [rewrite corpus201_length; lia |].
    rewrite Heq. reflexivity.
Qed.


(** * Further properties of the code *)

(** ** The filter engine, pass by pass *)

Lemma filter_twice {A} (f g : A -> bool) (l : list A) :
  List.filter g (List.filter f l) = List.filter (fun x => f x && g x) l.
Proof.
  induction l as [|x l IH]; simpl; [reflexivity |].
  destruct (f x) eqn:Hf; simpl; [destruct (g x) |]; rewrite IH; reflexivity.
Qed.

Lemma filterPredicate_parts ts cs ds term (r : TrendData) :
  filterPredicate ts cs ds term r =
  facetMatch ts (Topic r) && facetMatch cs (Company r) &&
  facetMatch ds (Date r) && termMatch term r.
Proof. reflexivity. Qed.

Ltac split_predicates :=
  rewrite ?filterPredicate_parts;
  change (facetMatch [] ?v) with true;
  change (termMatch "" ?r) with true;
  repeat match goal with
         | |- context [facetMatch ?sel ?v] =>
             destruct (facetMatch sel v)
         | |- context [termMatch ?t ?r] =>
             destruct (termMatch t r)
         end;
  try reflexivity.

(** X1.  Filtering in passes: two passes of [filteredData] commute, and a
    pass by facets followed by a pass by term, or the other way round, or
    facet after facet, gives the list that one pass with all the
    constraints gives. *)
Theorem filteredData_in_passes (D : list TrendData)
    (ts cs ds ts' cs' ds' : list string) (term term' : string) :
  filteredData (filteredData D ts cs ds term) ts' cs' ds' term' =
  filteredData (filteredData D ts' cs' ds' term') ts cs ds term /\
  filteredData (filteredData D ts cs ds "") [] [] [] term =
  filteredData D ts cs ds term /\
  filteredData (filteredData D [] [] [] term) ts cs ds "" =
  filteredData D ts cs ds term /\
  filteredData (filteredData (filteredData D ts [] [] "") [] cs [] "") [] [] ds term =
  filteredData D ts cs ds term.
Proof.
  unfold filteredData. rewrite !filter_twice.
  repeat split; apply filter_ext; intros r.
  - apply andb_comm.
  - split_predicates.
  - split_predicates.
  - split_predicates.
Qed.

Lemma filter_sublist_impl {A} (f g : A -> bool) (l : list A) :
  (forall x, f x = true -> g x = true) ->
  sublist (List.filter f l) (List.filter g l).
Proof.
  intros Hfg. induction l as [|x l IH]; simpl; [constructor |].
  destruct (f x) eqn:Hf.
  - rewrite (Hfg x Hf). apply sublist_skip. exact IH.
  - destruct (g x); [apply sublist_cons |]; exact IH.
Qed.

Lemma facetMatch_spec (sel : list string) (v : string) :
  facetMatch sel v = true <-> facetPasses sel v.
Proof. apply facet_match_spec. Qed.

Lemma facetMatch_wider (sel sel' : list string) (v : string) :
  facetWider sel sel' -> facetMatch sel v = true -> facetMatch sel' v = true.
Proof.
  rewrite !facetMatch_spec. unfold facetPasses.
  intros [-> | [Hne Hsub]] [Hnil | Hin]; auto; contradiction.
Qed.

(** X2.  Widening a filter never hides a row: when each facet selection
    is replaced by a wider one (cleared, or a non-empty selection that
    grows) the rows shown before are still shown, in the same order; the
    same holds when the term is cleared. *)
Theorem filteredData_widen (D : list TrendData)
    (ts ts' cs cs' ds ds' : list string) (term : string) :
  facetWider ts ts' -> facetWider cs cs' -> facetWider ds ds' ->
  sublist (filteredData D ts cs ds term) (filteredData D ts' cs' ds' term) /\
  sublist (filteredData D ts cs ds term) (filteredData D ts' cs' ds' "").
Proof.
  intros Ht Hc Hd.
  split; apply filter_sublist_impl; intros r;
    rewrite !filterPredicate_parts, !andb_true_iff;
    intros [[[H1 H2] H3] H4]; repeat split;
    eauto using facetMatch_wider.
Qed.

Lemma filteredData_widen_witness :
  sublist (filteredData twoTopics ["Phishing"] [] ["2024-01-01"] "breach")
          (filteredData twoTopics ["Phishing"; "Ransomware"] [] [] "breach").
Proof.
  apply (filteredData_widen twoTopics ["Phishing"] ["Phishing"; "Ransomware"]
           [] [] ["2024-01-01"] [] "breach").
  - right. split; [discriminate |]. intros x Hx.
    apply list_elem_of_singleton in Hx as ->. apply elem_of_cons. left. reflexivity.
  - left. reflexivity.
  - left. reflexivity.
Defined.

(** ** The search term *)

Lemma String_app_assoc (a b c : string) : (a +:+ b) +:+ c = a +:+ (b +:+ c).
Proof.
  induction a as [|x a IH]; [reflexivity |].
  change (String x ((a +:+ b) +:+ c) = String x (a +:+ (b +:+ c))).
  f_equal. exact IH.
Qed.

Lemma toLowerCase_empty (s : string) : toLowerCase s = "" <-> s = "".
Proof. destruct s; simpl; split; (reflexivity || discriminate). Qed.

Lemma lowerChar_idempotent (c : ascii) : lowerChar (lowerChar c) = lowerChar c.
Proof.
  destruct c as [[] [] [] [] [] [] [] []]; vm_compute; reflexivity.
Qed.

Lemma toLowerCase_idempotent (s : string) :
  toLowerCase (toLowerCase s) = toLowerCase s.
Proof.
  induction s as [|c s IH]; simpl; [reflexivity |].
  rewrite lowerChar_idempotent, IH. reflexivity.
Qed.

Lemma isSubstring_trans (a b c : string) :
  isSubstring a b -> isSubstring b c -> isSubstring a c.
Proof.
  intros (p & q & ->) (p' & q' & ->).
  exists (p' +:+ p), (q +:+ q'). rewrite !String_app_assoc. reflexivity.
Qed.

Lemma termMatch_spec (term : string) (r : TrendData) :
  termMatch term r = true <-> termPasses term r.
Proof.
  unfold termMatch, termPasses.
  rewrite !orb_true_iff, String.eqb_eq, !includes_spec. split.
  - intros [[[[[H|H]|H]|H]|H]|H]; [left; exact H | right ..];
      eexists; (split; [|exact H]); rewrite !elem_of_cons; tauto.
  - intros [H | [field [Hin H]]]; [tauto |].
    rewrite !elem_of_cons in Hin.
    destruct Hin as [->|[->|[->|[->|[->|Hin]]]]]; [tauto .. |].
    inversion Hin.
Qed.

Lemma termMatch_narrower (t t' : string) (r : TrendData) :
  isSubstring (toLowerCase t) (toLowerCase t') ->
  termMatch t' r = true -> termMatch t r = true.
Proof.
  rewrite !termMatch_spec. intros Hsub [-> | (field & Hin & Hf)].
  - left. destruct Hsub as (a & b & Hab). simpl in Hab.
    destruct a; [| discriminate]. simpl in Hab.
    apply (proj1 (toLowerCase_empty t)).
    destruct (toLowerCase t); [reflexivity | discriminate].
  - right. exists field. split; [exact Hin |].
    eapply isSubstring_trans; eassumption.
Qed.

(** X3.  A narrower term narrows the list: when the lower-case form of
    [term] occurs inside the lower-case form of [term'], the rows shown
    for [term'] are among the rows shown for [term], in the same order. *)
Theorem filteredData_longer_term (D : list TrendData)
    (ts cs ds : list string) (term term' : string) :
  isSubstring (toLowerCase term) (toLowerCase term') ->
  sublist (filteredData D ts cs ds term') (filteredData D ts cs ds term).
Proof.
  intros Hsub. apply filter_sublist_impl. intros r.
  rewrite !filterPredicate_parts, !andb_true_iff.
  intros [H123 H4]. split; [exact H123 |].
  eapply termMatch_narrower; eassumption.
Qed.

Lemma filteredData_longer_term_witness :
  isSubstring (toLowerCase "Phish") (toLowerCase "a PHISHING kit") /\
  sublist (filteredData twoTopics [] [] [] "a PHISHING kit")
          (filteredData twoTopics [] [] [] "Phish").
Proof.
  assert (H : isSubstring (toLowerCase "Phish") (toLowerCase "a PHISHING kit"))
    by (exists "a ", "ing kit"; reflexivity).
  split; [exact H |].
  apply (filteredData_longer_term twoTopics [] [] [] "Phish" "a PHISHING kit").
  exact H.
Defined.

(** X4.  The term is matched without regard to letter case: two terms with
    the same lower-case form give the same filtered list, and so do a term
    and its lower-case form. *)
Theorem filteredData_case_insensitive (D : list TrendData)
    (ts cs ds : list string) (term : string) :
  (forall term',
      toLowerCase term = toLowerCase term' ->
      filteredData D ts cs ds term = filteredData D ts cs ds term') /\
  filteredData D ts cs ds (toLowerCase term) = filteredData D ts cs ds term.
Proof.
  assert (Hgen : forall t t',
             toLowerCase t = toLowerCase t' ->
             filteredData D ts cs ds t = filteredData D ts cs ds t').
  { intros t t' Hlow. apply filter_ext. intros r.
    rewrite !filterPredicate_parts. f_equal. unfold termMatch.
    rewrite Hlow. f_equal; f_equal; f_equal; f_equal; f_equal.
    destruct (String.eqb_spec t "") as [-> | Hne];
      destruct (String.eqb_spec t' "") as [-> | Hne']; try reflexivity.
    - symmetry in Hlow. apply (proj1 (toLowerCase_empty t')) in Hlow.
      contradiction.
    - apply (proj1 (toLowerCase_empty t)) in Hlow. contradiction. }
  split; [intros term'; apply Hgen |].
  apply Hgen. apply toLowerCase_idempotent.
Qed.

(** ** The order of the dataset *)

Lemma filter_Permutation {A} (f : A -> bool) (l l' : list A) :
  l ≡ₚ l' -> List.filter f l ≡ₚ List.filter f l'.
Proof.
  induction 1 as [| x l l' _ IH | x y l | l l' l'' _ IH1 _ IH2]; simpl.
  - reflexivity.
  - destruct (f x); [constructor |]; exact IH.
  - destruct (f x), (f y); try reflexivity. apply perm_swap.
  - etrans; eassumption.
Qed.

Lemma sorted_facet_unique (cmp : string -> string -> Sign) (f : TrendData -> string)
    (D D' : list TrendData) :
  D ≡ₚ D' ->
  Array_sort defaultCompare (collectField f D []) =
  Array_sort defaultCompare (collectField f D' []).
Proof.
  intros HD.
  apply (StronglySorted_unique String.le); try apply defaultCompare_sorted.
  rewrite !Array_sort_perm.
  apply NoDup_Permutation; try (apply collectField_NoDup; constructor).
  intros v. rewrite !collectField_elem.
  split; (intros [H | [Hne (r & Hr & Hf)]]; [inversion H |]);
    right; (split; [exact Hne |]); exists r; (split; [| exact Hf]).
  - rewrite <- HD. exact Hr.
  - rewrite HD. exact Hr.
Qed.

(** X5.  The order of the dataset does not matter to what is offered and
    what passes: two datasets with the same records in different orders
    have the same topic and company facets, the same date facets up to
    order, and filtered lists with the same records. *)
Theorem dataset_order_independent (getTime : string -> option Z)
    (D D' : list TrendData) (ts cs ds : list string) (term : string) :
  D ≡ₚ D' ->
  topics (filterOptions getTime D) = topics (filterOptions getTime D') /\
  companies (filterOptions getTime D) = companies (filterOptions getTime D') /\
  dates (filterOptions getTime D) ≡ₚ dates (filterOptions getTime D') /\
  filteredData D ts cs ds term ≡ₚ filteredData D' ts cs ds term.
Proof.
  intros HD. rewrite !filterOptions_fields. simpl.
  split; [apply (sorted_facet_unique defaultCompare); exact HD |].
  split; [apply (sorted_facet_unique defaultCompare); exact HD |].
  split; [| apply filter_Permutation; exact HD].
  rewrite !Array_sort_perm.
  apply NoDup_Permutation; try (apply collectField_NoDup; constructor).
  intros v. rewrite !collectField_elem.
  split; (intros [H | [Hne (r & Hr & Hf)]]; [inversion H |]);
    right; (split; [exact Hne |]); exists r; (split; [| exact Hf]).
  - rewrite <- HD. exact Hr.
  - rewrite HD. exact Hr.
Qed.

Lemma dataset_order_independent_witness :
  topics (filterOptions IsoDate.isoGetTime twoTopics) =
  topics (filterOptions IsoDate.isoGetTime (rev twoTopics)).
Proof.
  apply (dataset_order_independent IsoDate.isoGetTime twoTopics (rev twoTopics)
           [] [] [] "").
  apply Permutation_rev.
Defined.

(** X6.  No event but the answer of the loader adds, drops or changes a
    record: whatever the draws, [allData] after the event holds the
    records it held before, possibly in another order, and the topic and
    company facets are the same. *)
Theorem allData_kept_up_to_order (parse : string -> option JSON)
    (getTime : string -> option Z) (s : AppState) (e : Event) :
  (forall fetched, e <> DataSettled fetched) ->
  always (fun '(s', _) =>
            allData s' ≡ₚ allData s /\
            topics (filterOptions getTime (allData s')) =
            topics (filterOptions getTime (allData s)) /\
            companies (filterOptions getTime (allData s')) =
            companies (filterOptions getTime (allData s)))
    (step parse s e).
Proof.
  intros Hload.
  assert (Hperm : always (fun '(s', _) => allData s' ≡ₚ allData s) (step parse s e)).
  { assert (e = AiSearch \/ e <> AiSearch) as [-> | Hne]
      by (destruct e; auto; right; discriminate).
    - simpl. unfold handleAiSearch_begin.
      destruct (negb (truthy (trim (searchQuery s))) || isSearching s);
        [simpl; reflexivity |].
      unfold findRelevantStats_request.
      apply always_bind
        with (P := fun p : list TrendData * Request => fst p ≡ₚ allData s);
        [apply always_bind
           with (P := fun p : list TrendData * list TrendData =>
                        fst p ≡ₚ allData s) |].
      + unfold selectSubset. destruct (200 <? length (allData s))%nat;
          [| simpl; reflexivity].
        eapply always_bind; [apply Array_sortR_perm |].
        intros sorted Hs. exact Hs.
      + intros [data' dataSubset] Hd. exact Hd.
      + intros [data' request] Hd. simpl in *.
        unfold allDataSortedInPlace. simpl. exact Hd.
    - eapply always_impl; [| apply (allData_frame parse s e Hload); auto].
      intros [s' requests] ->. reflexivity. }
  eapply always_impl; [| exact Hperm].
  intros [s' requests] Hs. split; [exact Hs |].
  rewrite !filterOptions_fields. simpl.
  split; apply (sorted_facet_unique defaultCompare); exact Hs.
Qed.

Lemma allData_kept_up_to_order_witness :
  always (fun '(s', _) =>
            allData s' ≡ₚ allData loadedState /\
            topics (filterOptions IsoDate.isoGetTime (allData s')) =
            topics (filterOptions IsoDate.isoGetTime (allData loadedState)) /\
            companies (filterOptions IsoDate.isoGetTime (allData s')) =
            companies (filterOptions IsoDate.isoGetTime (allData loadedState)))
    (step noParser loadedState AiSearch).
Proof.
  apply (allData_kept_up_to_order noParser IsoDate.isoGetTime loadedState AiSearch).
  intros fetched. discriminate.
Defined.

(** ** Invariants of the coordinator *)

(** An invariant that every possible step keeps holds in every reachable
    state. *)
Lemma reachable_invariant (parse : string -> option JSON)
    (Inv : AppState -> Prop) :
  Inv initialState ->
  (forall s e, Inv s -> possible s e ->
               always (fun '(s', _) => Inv s') (step parse s e)) ->
  forall s, reachable parse s -> Inv s.
Proof.
  intros Hinit Hstep s Hs. induction Hs as [| s e draws _ IH Hposs].
  - exact Hinit.
  - specialize (Hstep s e IH Hposs).
    apply (always_run _ _ draws) in Hstep.
    destruct (run (step parse s e) draws) as [s' requests]. exact Hstep.
Qed.

Lemma typedState_reachable : reachable noParser typedState.
Proof.
  unfold typedState. apply reachable_step; [| exact I].
  apply reachable_step; [apply reachable_initial | reflexivity].
Qed.

Lemma toggledState_reachable : reachable resultsParser toggledState.
Proof.
  unfold toggledState, after.
  repeat (apply reachable_step; [| first [exact I | reflexivity]]).
  apply reachable_initial.
Qed.

Lemma searchingState_reachable : reachable resultsParser searchingState.
Proof.
  unfold searchingState, after.
  apply reachable_step; [apply toggledState_reachable | exact I].
Qed.

Lemma answeredState_reachable : reachable resultsParser answeredState.
Proof.
  unfold answeredState, after.
  apply reachable_step; [apply searchingState_reachable | reflexivity].
Qed.

Lemma summarizingState_reachable : reachable resultsParser summarizingState.
Proof.
  unfold summarizingState, after.
  apply reachable_step; [apply answeredState_reachable | reflexivity].
Qed.

Lemma summarisedState_reachable : reachable resultsParser summarisedState.
Proof.
  unfold summarisedState, after.
  apply reachable_step; [apply summarizingState_reachable | reflexivity].
Qed.

Lemma searchFailure_truthy (parse : string -> option JSON) (response : Response)
    (message : string) :
  findRelevantStats_response parse response = Thrown message ->
  truthy (if truthy message then message else unknownSearchFailure) = true.
Proof. intros _. destruct (truthy message) eqn:H; [exact H | reflexivity]. Qed.

Lemma searchConsistent_step (parse : string -> option JSON) (s : AppState)
    (e : Event) :
  searchConsistent s -> possible s e ->
  always (fun '(s', _) => searchConsistent s') (step parse s e).
Proof.
  unfold searchConsistent. intros [Hbusy Herr] Hposs.
  destruct e; simpl in *; try (split; assumption).
  - (* DataSettled *)
    destruct fetched; simpl; split; assumption.
  - (* AiSearch *)
    unfold handleAiSearch_begin.
    destruct (negb (truthy (trim (searchQuery s))) || isSearching s); simpl;
      [split; assumption |].
    eapply always_bind; [apply always_true |].
    intros [data' request] _. simpl. split; [auto | discriminate].
  - (* AiSearchSettled *)
    destruct (Hbusy Hposs) as [Hres Hnone].
    unfold handleAiSearch_settle.
    destruct (findRelevantStats_response parse response) eqn:Hr; simpl.
    + split; [discriminate |]. intros m Hm. congruence.
    + split; [discriminate |]. intros m [= <-].
      split; [eapply searchFailure_truthy; exact Hr | exact Hres].
  - (* ClearAiSearch *)
    split; [auto | discriminate].
  - (* GenerateSummary *)
    unfold handleGenerateSummary_begin.
    destruct (length (aiResults s) =? 0)%nat; simpl; [split; assumption |].
    destruct (generateSummary_request (aiResults s)); simpl; split; assumption.
  - (* SummarySettled *)
    unfold handleGenerateSummary_settle.
    destruct (generateSummary_response response); simpl; split; assumption.
Qed.

Lemma shown_section (b : bool) (panels : list bool) :
  shown (List.map (andb b) panels) = if b then shown panels else 0%nat.
Proof.
  unfold shown. destruct b; simpl.
  - rewrite map_id. reflexivity.
  - induction panels as [| x l IH]; [reflexivity | exact IH].
Qed.

(** X7.  In every state [App] can reach, exactly one panel of the result
    section is rendered when the main page is: the spinner, the failure
    panel, the table of AI results or the browse table; and none while the
    loader or the load error is all that [App] returns.  While a search
    is in flight there are no results and no error, and an error is never
    kept together with results. *)
Theorem result_panels_exclusive (parse : string -> option JSON) (s : AppState) :
  reachable parse s ->
  shown (resultSection s) = (if rendersMain s then 1 else 0)%nat /\
  (isSearching s = true -> aiResults s = [] /\ aiError s = None) /\
  (aiError s <> None -> aiResults s = []).
Proof.
  intros Hs.
  assert (Hinv : searchConsistent s).
  { revert s Hs. apply reachable_invariant.
    - split; [discriminate | discriminate].
    - apply searchConsistent_step. }
  destruct Hinv as [Hbusy Herr]. split; [| split; [exact Hbusy |]].
  - unfold resultSection. rewrite shown_section.
    assert (shown (resultPanels s) = 1%nat) as ->; [| reflexivity].
    unfold shown, resultPanels, rendersSpinner, rendersSearchFailed,
      rendersAiTable, rendersBrowse, showAiResults.
    destruct (isSearching s) eqn:Hsearching.
    + destruct (Hbusy eq_refl) as [-> ->]. reflexivity.
    + destruct (aiError s) as [m |] eqn:Hm.
      * destruct (Herr m eq_refl) as [Ht ->]. simpl. rewrite Ht. reflexivity.
      * simpl. destruct (aiResults s); reflexivity.
  - intros Hne. destruct (aiError s) as [m |] eqn:Hm; [| contradiction].
    apply (Herr m eq_refl).
Qed.

Lemma result_panels_exclusive_witness :
  (shown (resultSection initialState) = 0%nat /\
   shown (resultSection searchingState) = 1%nat /\
   shown (resultSection answeredState) = 1%nat) /\
  (aiResults searchingState = [] /\ aiError searchingState = None).
Proof.
  split; [split; [| split] |].
  - apply (result_panels_exclusive resultsParser initialState).
    apply reachable_initial.
  - apply (result_panels_exclusive resultsParser searchingState).
    exact searchingState_reachable.
  - apply (result_panels_exclusive resultsParser answeredState).
    exact answeredState_reachable.
  - apply (result_panels_exclusive resultsParser searchingState);
      [exact searchingState_reachable | reflexivity].
Defined.

Lemma summaryConsistent_cleared (s : AppState) :
  (isSummarizing s = true -> summary s = None /\ summaryError s = None) ->
  summaryConsistent (handleClearSummary s).
Proof.
  intros H. split; simpl; [auto | discriminate].
Qed.

Lemma summaryConsistent_step (parse : string -> option JSON) (s : AppState)
    (e : Event) :
  summaryConsistent s -> possible s e ->
  always (fun '(s', _) => summaryConsistent s') (step parse s e).
Proof.
  unfold summaryConsistent. intros [Hbusy Hboth] Hposs.
  destruct e; simpl in *; try (split; assumption);
    try (split; [auto | discriminate]).
  - (* DataSettled *)
    destruct fetched; simpl; split; assumption.
  - (* AiSearch *)
    unfold handleAiSearch_begin.
    destruct (negb (truthy (trim (searchQuery s))) || isSearching s); simpl;
      [split; assumption |].
    eapply always_bind; [apply always_true |].
    intros [data' request] _. simpl. split; [auto | discriminate].
  - (* AiSearchSettled *)
    unfold handleAiSearch_settle.
    destruct (findRelevantStats_response parse response); simpl;
      split; assumption.
  - (* GenerateSummary *)
    unfold handleGenerateSummary_begin.
    destruct (length (aiResults s) =? 0)%nat; simpl; [split; assumption |].
    destruct (generateSummary_request (aiResults s)); simpl.
    + split; [auto | discriminate].
    + split; [discriminate | auto].
  - (* SummarySettled *)
    destruct (Hbusy Hposs) as [Hsum Herr].
    unfold handleGenerateSummary_settle.
    destruct (generateSummary_response response); simpl.
    + split; [discriminate | intros; exact Herr].
    + split; [discriminate |]. intros text Ht. congruence.
Qed.

(** X8.  In every state [App] can reach, at most one panel of the summary
    section is rendered: the progress line, the failure panel, the summary
    or the button that generates it, and none while the main page is not
    rendered.  A summary and a summary error are never kept together, and
    while a summary is being generated there is neither. *)
Theorem summary_panels_exclusive (parse : string -> option JSON) (s : AppState) :
  reachable parse s ->
  (shown (summarySection s) <= 1)%nat /\
  (rendersMain s = false -> shown (summarySection s) = 0%nat) /\
  (isSummarizing s = true -> summary s = None /\ summaryError s = None) /\
  (summary s <> None -> summaryError s = None).
Proof.
  intros Hs.
  assert (Hinv : summaryConsistent s).
  { revert s Hs. apply reachable_invariant.
    - split; [discriminate | discriminate].
    - apply summaryConsistent_step. }
  destruct Hinv as [Hbusy Hboth].
  split; [| split; [| split; [exact Hbusy |]]].
  - unfold summarySection. rewrite shown_section.
    destruct (rendersMain s); [| lia].
    unfold shown, summaryPanels, rendersSummarizing, rendersSummaryFailed,
      rendersSummary, rendersGenerateButton.
    destruct (isSummarizing s) eqn:Hsum.
    + destruct (Hbusy eq_refl) as [-> ->]. simpl. lia.
    + destruct (summary s) as [text |] eqn:Ht.
      * rewrite (Hboth text eq_refl). simpl.
        destruct (truthy text); simpl; [lia |].
        destruct (0 <? length (aiResults s))%nat; simpl; lia.
      * simpl. destruct (optionTruthy (summaryError s)); simpl; [lia |].
        destruct (0 <? length (aiResults s))%nat; simpl; lia.
  - intros Hmain. unfold summarySection. rewrite shown_section, Hmain.
    reflexivity.
  - intros Hne. destruct (summary s) as [text |] eqn:Ht; [| contradiction].
    apply (Hboth text eq_refl).
Qed.

Lemma summary_panels_exclusive_witness :
  ((shown (summarySection summarisedState) <= 1)%nat /\
   summary summarisedState = Some "Phishing leads." /\
   summaryError summarisedState = None) /\
  (isSummarizing summarizingState = true /\
   summary summarizingState = None /\ summaryError summarizingState = None) /\
  shown (summarySection initialState) = 0%nat.
Proof.
  split; [| split].
  - destruct (summary_panels_exclusive resultsParser summarisedState
                summarisedState_reachable) as (Hone & _ & _ & Hboth).
    split; [exact Hone |]. split; [reflexivity |].
    apply Hboth. discriminate.
  - destruct (summary_panels_exclusive resultsParser summarizingState
                summarizingState_reachable) as (_ & _ & Hbusy & _).
    split; [reflexivity |]. apply Hbusy. reflexivity.
  - apply (summary_panels_exclusive resultsParser initialState);
      [apply reachable_initial | reflexivity].
Defined.

(** ** Selections *)

Lemma toggle_NoDup (v : string) (sel : list string) :
  NoDup sel -> NoDup (toggle v sel).
Proof.
  intros Hsel. unfold toggle. destruct (Array_includes sel v) eqn:Hin.
  - apply (sublist_NoDup _ sel Hsel). apply filter_sublist.
  - apply NoDup_app. split; [exact Hsel | split; [| apply NoDup_singleton]].
    intros x Hx Hv. apply list_elem_of_singleton in Hv as ->.
    apply Array_includes_spec in Hx. congruence.
Qed.

Lemma selectionsDistinct_step (parse : string -> option JSON) (s : AppState)
    (e : Event) :
  selectionsDistinct s ->
  always (fun '(s', _) => selectionsDistinct s') (step parse s e).
Proof.
  unfold selectionsDistinct. intros (Ht & Hc & Hd).
  destruct e; simpl; auto using toggle_NoDup, NoDup_nil_2.
  - destruct fetched; simpl; auto.
  - unfold handleAiSearch_begin.
    destruct (negb (truthy (trim (searchQuery s))) || isSearching s); simpl;
      [auto |].
    eapply always_bind; [apply always_true |].
    intros [data' request] _. simpl. auto.
  - unfold handleAiSearch_settle.
    destruct (findRelevantStats_response parse response); simpl; auto.
  - unfold handleGenerateSummary_begin.
    destruct (length (aiResults s) =? 0)%nat; simpl; [auto |].
    destruct (generateSummary_request (aiResults s)); simpl; auto.
  - unfold handleGenerateSummary_settle.
    destruct (generateSummary_response response); simpl; auto.
Qed.

Lemma filter_nothing {A} (f : A -> bool) (l : list A) :
  (forall x, x ∈ l -> f x = true) -> List.filter f l = l.
Proof.
  induction l as [|x l IH]; simpl; intros H; [reflexivity |].
  rewrite (H x) by left. f_equal. apply IH. intros y Hy. apply H. right. exact Hy.
Qed.

(** X9.  A selection never holds a value twice, in any state [App] can
    reach; and on such a selection two toggles of a value that was absent
    give the selection back as it was, two toggles of a value that was
    present give it back with that value moved to the end. *)
Theorem selections_distinct (parse : string -> option JSON) (s : AppState)
    (v : string) :
  reachable parse s ->
  (NoDup (selectedTopics s) /\ NoDup (selectedCompanies s) /\
   NoDup (selectedDates s)) /\
  (forall sel, NoDup sel ->
     (v ∉ sel -> toggle v (toggle v sel) = sel) /\
     (v ∈ sel ->
      toggle v (toggle v sel) =
      List.filter (fun t => negb (String.eqb t v)) sel ++ [v]) /\
     toggle v (toggle v sel) ≡ₚ sel).
Proof.
  intros Hs. split.
  { revert s Hs. apply reachable_invariant.
    - repeat split; apply NoDup_nil_2.
    - intros s e Hinv _. apply selectionsDistinct_step. exact Hinv. }
  intros sel Hsel.
  assert (Habsent : v ∉ sel -> toggle v (toggle v sel) = sel).
  { intros Hv. unfold toggle at 2.
    destruct (Array_includes sel v) eqn:Hin;
      [apply Array_includes_spec in Hin; contradiction |].
    unfold toggle.
    assert (Array_includes (sel ++ [v]) v = true) as ->.
    { apply Array_includes_spec, elem_of_app. right. left. }
    rewrite List.filter_app. simpl. rewrite String.eqb_refl. simpl.
    rewrite app_nil_r. apply filter_nothing.
    intros x Hx. apply negb_true_iff, String.eqb_neq. intros ->. contradiction. }
  assert (Hpresent : v ∈ sel ->
            toggle v (toggle v sel) =
            List.filter (fun t => negb (String.eqb t v)) sel ++ [v]).
  { intros Hv. unfold toggle at 2.
    apply Array_includes_spec in Hv. rewrite Hv.
    unfold toggle.
    destruct (Array_includes (List.filter (fun t => negb (String.eqb t v)) sel) v)
      eqn:Hin; [| reflexivity].
    apply Array_includes_spec, list_elem_of_In, filter_In in Hin as [_ Hin].
    rewrite String.eqb_refl in Hin. discriminate. }
  split; [exact Habsent | split; [exact Hpresent |]].
  destruct (decide (v ∈ sel)) as [Hv | Hv]; [| rewrite Habsent; auto].
  apply NoDup_Permutation; [apply toggle_NoDup, toggle_NoDup | |];
    try exact Hsel.
  intros x. apply toggle_twice_elem.
Qed.

Lemma selections_distinct_witness :
  selectedTopics toggledState = ["Phishing"; "Ransomware"] /\
  NoDup (selectedTopics toggledState) /\
  toggle "Phishing" (toggle "Phishing" (selectedTopics toggledState)) =
  ["Ransomware"; "Phishing"] /\
  toggle "Malware" (toggle "Malware" (selectedTopics toggledState)) =
  selectedTopics toggledState.
Proof.
  split; [reflexivity |].
  destruct (selections_distinct resultsParser toggledState "Phishing"
              toggledState_reachable) as [(Htopics & _ & _) Htwice].
  destruct (selections_distinct resultsParser toggledState "Malware"
              toggledState_reachable) as [_ Htwice'].
  split; [exact Htopics |]. split.
  - apply (Htwice (selectedTopics toggledState) Htopics).
    apply (bool_decide_unpack _). vm_compute. exact I.
  - apply (Htwice' (selectedTopics toggledState) Htopics).
    apply (bool_decide_unpack _). vm_compute. exact I.
Defined.

(** ** Handlers and the rows shown *)

Lemma facetMatch_ext (sel sel' : list string) (v : string) :
  (forall x, x ∈ sel <-> x ∈ sel') -> facetMatch sel v = facetMatch sel' v.
Proof.
  intros Hsame. apply eq_true_iff_eq. rewrite !facetMatch_spec.
  unfold facetPasses. split; intros [Hnil | Hin].
  - left. destruct sel' as [|y sel']; [reflexivity |].
    assert (y ∈ sel) as Hy by (apply Hsame; left). rewrite Hnil in Hy. inversion Hy.
  - right. apply Hsame. exact Hin.
  - left. destruct sel as [|y sel]; [reflexivity |].
    assert (y ∈ sel') as Hy by (apply Hsame; left). rewrite Hnil in Hy. inversion Hy.
  - right. apply Hsame. exact Hin.
Qed.

Lemma filteredData_selection_ext (D : list TrendData)
    (ts ts' cs cs' ds ds' : list string) (term : string) :
  (forall x, x ∈ ts <-> x ∈ ts') -> (forall x, x ∈ cs <-> x ∈ cs') ->
  (forall x, x ∈ ds <-> x ∈ ds') ->
  filteredData D ts cs ds term = filteredData D ts' cs' ds' term.
Proof.
  intros Ht Hc Hd. apply filter_ext. intros r.
  rewrite !filterPredicate_parts.
  rewrite (facetMatch_ext ts ts'), (facetMatch_ext cs cs'),
    (facetMatch_ext ds ds') by assumption.
  reflexivity.
Qed.

Lemma visibleData_restored (s : AppState) (v : string) :
  visibleData (handleTopicToggle v (handleTopicToggle v s)) = visibleData s /\
  visibleData (handleCompanyToggle v (handleCompanyToggle v s)) = visibleData s /\
  visibleData (handleDateToggle v (handleDateToggle v s)) = visibleData s /\
  visibleData (handleResetFilters s) = allData s.
Proof.
  unfold visibleData. simpl.
  repeat split;
    try (apply filteredData_selection_ext; intros x;
         try apply toggle_twice_elem; reflexivity).
  unfold filteredData. apply filter_nothing. intros r _. reflexivity.
Qed.

Lemma facetMatch_single (v value : string) :
  facetMatch [v] value = String.eqb value v.
Proof.
  unfold facetMatch, Array_includes. simpl. apply orb_false_r.
Qed.

Lemma visibleData_after_toggle (s : AppState) (v : string) :
  (selectedTopics s = [] ->
   visibleData (handleTopicToggle v s) =
   List.filter (fun r => String.eqb (Topic r) v) (visibleData s)) /\
  (selectedCompanies s = [] ->
   visibleData (handleCompanyToggle v s) =
   List.filter (fun r => String.eqb (Company r) v) (visibleData s)) /\
  (selectedDates s = [] ->
   visibleData (handleDateToggle v s) =
   List.filter (fun r => String.eqb (Date r) v) (visibleData s)) /\
  (selectedTopics s <> [] -> v ∉ selectedTopics s ->
   sublist (visibleData s) (visibleData (handleTopicToggle v s))) /\
  (selectedCompanies s <> [] -> v ∉ selectedCompanies s ->
   sublist (visibleData s) (visibleData (handleCompanyToggle v s))) /\
  (selectedDates s <> [] -> v ∉ selectedDates s ->
   sublist (visibleData s) (visibleData (handleDateToggle v s))).
Proof.
  assert (Hadd : forall sel, v ∉ sel -> toggle v sel = sel ++ [v]).
  { intros sel Hv. unfold toggle.
    destruct (Array_includes sel v) eqn:Hin; [| reflexivity].
    apply Array_includes_spec in Hin. contradiction. }
  assert (Hwider : forall sel, sel <> [] -> facetWider sel (sel ++ [v])).
  { intros sel Hne. right. split; [exact Hne |].
    intros x Hx. apply elem_of_app. left. exact Hx. }
  assert (Hrefl : forall sel, facetWider sel sel).
  { intros [|y sel]; [left; reflexivity | right].
    split; [discriminate | auto]. }
  unfold visibleData. simpl.
  repeat split.
  1-3: (intros ->; unfold filteredData; rewrite filter_twice;
        apply filter_ext; intros r; rewrite !filterPredicate_parts;
        change (toggle v []) with [v]; rewrite facetMatch_single;
        change (facetMatch [] ?x) with true;
        repeat match goal with
               | |- context [facetMatch ?sel ?x] => destruct (facetMatch sel x)
               | |- context [termMatch ?t ?x] => destruct (termMatch t x)
               end;
        simpl; rewrite ?andb_true_r, ?andb_false_r; reflexivity).
  all: intros Hne Hv; rewrite (Hadd _ Hv);
    apply filter_sublist_impl; intros r;
    rewrite !filterPredicate_parts, !andb_true_iff;
    intros [[[H1 H2] H3] H4]; repeat split;
    eauto using facetMatch_wider.
Qed.

(** *** The memo of the browse table *)

(** An event that leaves the dependencies of the memo alone leaves the
    filters as they are and the dataset with the records it had; the
    dataset itself, when it has at most 200 records. *)
Lemma step_keeps_dependencies (parse : string -> option JSON) (s : AppState)
    (e : Event) :
  dependenciesChange s e = false ->
  always (fun '(s', _) =>
            selectedTopics s' = selectedTopics s /\
            selectedCompanies s' = selectedCompanies s /\
            selectedDates s' = selectedDates s /\
            searchTerm s' = searchTerm s /\
            allData s' ≡ₚ allData s /\
            ((length (allData s) <= 200)%nat -> allData s' = allData s))
    (step parse s e).
Proof.
  intros Hdeps. destruct e; simpl in *; try discriminate;
    try (repeat split; reflexivity).
  - destruct fetched; [discriminate |]. simpl. repeat split; reflexivity.
  - apply negb_false_iff, String.eqb_eq in Hdeps. subst value.
    repeat split; reflexivity.
  - unfold handleAiSearch_begin.
    destruct (negb (truthy (trim (searchQuery s))) || isSearching s);
      [simpl; repeat split; reflexivity |].
    unfold findRelevantStats_request.
    eapply always_bind
      with (P := fun p : list TrendData * Request =>
                   fst p ≡ₚ allData s /\
                   ((length (allData s) <= 200)%nat -> fst p = allData s)).
    + destruct (Nat.le_gt_cases (length (allData s)) 200) as [Hle | Hgt].
      * rewrite selectSubset_small by exact Hle. simpl. auto.
      * eapply always_bind; [apply selectSubset_large; exact Hgt |].
        intros [data' dataSubset] [Hperm _]. simpl.
        split; [exact Hperm | lia].
    + intros [data' request] [Hperm Hsame]. simpl in *.
      repeat split; assumption.
  - unfold handleAiSearch_settle.
    destruct (findRelevantStats_response parse response); simpl;
      repeat split; reflexivity.
  - unfold handleGenerateSummary_begin.
    destruct (length (aiResults s) =? 0)%nat; simpl;
      [repeat split; reflexivity |].
    destruct (generateSummary_request (aiResults s)); simpl;
      repeat split; reflexivity.
  - unfold handleGenerateSummary_settle.
    destruct (generateSummary_response response); simpl;
      repeat split; reflexivity.
Qed.

Lemma memoConsistent_render (parse : string -> option JSON) (screen : Screen)
    (e : Event) (draws : nat -> Q) :
  memoConsistent screen -> memoConsistent (render parse screen e draws).
Proof.
  intros [Hperm Hsame]. unfold memoConsistent, render. cbn [appState filteredDataMemo].
  destruct (dependenciesChange (appState screen) e) eqn:Hdeps;
    [split; [reflexivity | intros _; reflexivity] |].
  pose proof (always_run _ _ draws
                (step_keeps_dependencies parse (appState screen) e Hdeps))
    as Hkeep.
  destruct (run (step parse (appState screen) e) draws) as [s' requests].
  cbn [fst]. destruct Hkeep as (Ht & Hc & Hd & Hterm & Hdata & Hdata').
  unfold visibleData in *. rewrite Ht, Hc, Hd, Hterm. split.
  - rewrite Hperm. unfold filteredData. apply filter_Permutation.
    symmetry. exact Hdata.
  - intros Hlen.
    assert (Hlen' : (length (allData (appState screen)) <= 200)%nat)
      by (rewrite <- Hdata; exact Hlen).
    rewrite (Hdata' Hlen'). apply Hsame. exact Hlen'.
Qed.

Lemma memoConsistent_reachable (parse : string -> option JSON)
    (screen : Screen) :
  reachableScreen parse screen -> memoConsistent screen.
Proof.
  induction 1 as [| screen e draws _ IH _].
  - split; [reflexivity | intros _; reflexivity].
  - apply memoConsistent_render. exact IH.
Qed.

Lemma twoTopicsScreen_reachable : reachableScreen resultsParser twoTopicsScreen.
Proof.
  apply reachableScreen_step; [apply reachableScreen_initial | reflexivity].
Qed.

Lemma phishingScreen_reachable : reachableScreen resultsParser phishingScreen.
Proof.
  apply reachableScreen_step; [apply twoTopicsScreen_reachable | exact I].
Qed.

Lemma searchedScreen_reachable : reachableScreen noParser searchedScreen.
Proof.
  unfold searchedScreen.
  repeat (apply reachableScreen_step; [| first [exact I | reflexivity]]).
  apply reachableScreen_initial.
Qed.

(** The table is not the filter of the state at every moment: after a
    search over the large corpus with every draw at 0.75 the dataset is
    turned round, and the table keeps the order of the load. *)
Example memo_kept_across_search :
  filteredDataMemo searchedScreen = corpus201 /\
  visibleData (appState searchedScreen) = rev corpus201.
Proof.
  split; [vm_compute; reflexivity |].
  unfold searchedScreen, render. cbn [appState filteredDataMemo].
  unfold visibleData.
  rewrite allData_after_search;
    [| reflexivity | reflexivity | vm_compute; lia].
  unfold highDraws. rewrite Array_sortR_constant.
  vm_compute. reflexivity.
Qed.



(** X11.  Over a dataset of at most 200 records, selecting a first value
    of a facet keeps, of the rows shown, the rows that carry that value,
    in their order; selecting a further value of a facet that has a
    selection keeps what was shown and adds rows. *)
Theorem visible_rows_after_toggle (parse : string -> option JSON)
    (screen : Screen) (v : string) (draws : nat -> Q) :
  reachableScreen parse screen ->
  (length (allData (appState screen)) <= 200)%nat ->
  let s := appState screen in
  let rows := filteredDataMemo screen in
  let rowsAfter e := filteredDataMemo (render parse screen e draws) in
  (selectedTopics s = [] ->
   rowsAfter (TopicToggle v) =
   List.filter (fun r => String.eqb (Topic r) v) rows) /\
  (selectedCompanies s = [] ->
   rowsAfter (CompanyToggle v) =
   List.filter (fun r => String.eqb (Company r) v) rows) /\
  (selectedDates s = [] ->
   rowsAfter (DateToggle v) =
   List.filter (fun r => String.eqb (Date r) v) rows) /\
  (selectedTopics s <> [] -> v ∉ selectedTopics s ->
   sublist rows (rowsAfter (TopicToggle v))) /\
  (selectedCompanies s <> [] -> v ∉ selectedCompanies s ->
   sublist rows (rowsAfter (CompanyToggle v))) /\
  (selectedDates s <> [] -> v ∉ selectedDates s ->
   sublist rows (rowsAfter (DateToggle v))).
Proof.
  intros Hreach Hlen s rows rowsAfter.
  destruct (memoConsistent_reachable parse screen Hreach) as [_ Hsame].
  unfold rows. rewrite (Hsame Hlen).
  exact (visibleData_after_toggle (appState screen) v).
Qed.

Lemma visible_rows_after_toggle_witness :
  filteredDataMemo twoTopicsScreen = twoTopics /\
  filteredDataMemo
    (render resultsParser twoTopicsScreen (TopicToggle "Phishing") zeroDraws) =
  [phishingRecord; datedRecord "2022-06-15"] /\
  sublist (filteredDataMemo phishingScreen)
    (filteredDataMemo
       (render resultsParser phishingScreen (TopicToggle "Ransomware")
          zeroDraws)).
Proof.
  split; [reflexivity |].
  destruct (visible_rows_after_toggle resultsParser twoTopicsScreen "Phishing"
              zeroDraws twoTopicsScreen_reachable)
    as (Hfirst & _); [simpl; lia |].
  destruct (visible_rows_after_toggle resultsParser phishingScreen "Ransomware"
              zeroDraws phishingScreen_reachable)
    as (_ & _ & _ & Hmore & _); [simpl; lia |].
  split.
  - rewrite Hfirst; reflexivity.
  - apply Hmore; [discriminate |].
    apply (bool_decide_unpack _). vm_compute. exact I.
Defined.

(** X12.  A search round.  From a state with the data loaded, a query
    that is not blank and no search in flight, the submission shows the
    searching view; when the answer arrives the search is no longer in
    flight, and: a rejected call, an answer without text or an answer that
    does not parse shows the failure view with the fixed message and no
    results; an answer with
    at least one result shows the AI results, which are the items of the
    answer; an answer with no result (an empty array, a blank text, a value
    that is not an array) shows the browse view again. *)
Theorem search_round (parse : string -> option JSON) (s : AppState)
    (response : Response) :
  isDataLoading s = false -> optionTruthy (dataError s) = false ->
  allWhiteSpace (searchQuery s) = false -> isSearching s = false ->
  always (fun '(s1, _) =>
            activeView s1 = AISearching /\
            isSearching (handleAiSearch_settle parse response s1) = false /\
            match findRelevantStats_response parse response with
            | Thrown _ =>
                activeView (handleAiSearch_settle parse response s1) = AIError /\
                aiError (handleAiSearch_settle parse response s1) =
                Some searchFailure /\
                aiResults (handleAiSearch_settle parse response s1) = []
            | Returned [] =>
                activeView (handleAiSearch_settle parse response s1) = Browse
            | Returned (item :: items) =>
                activeView (handleAiSearch_settle parse response s1) = AIResults /\
                aiResults (handleAiSearch_settle parse response s1) = item :: items
            end)
    (step parse s AiSearch).
Proof.
  intros Hload Herr Hq Hs. simpl. unfold handleAiSearch_begin.
  rewrite truthy_trim, Hq, Hs. simpl.
  eapply always_bind; [apply always_true |].
  intros [data' request] _. simpl.
  unfold activeView, handleAiSearch_settle. simpl. rewrite Hload, Herr.
  split; [reflexivity |].
  assert (Hmsg : forall m,
             findRelevantStats_response parse response = Thrown m ->
             m = searchFailure).
  { intros m. unfold findRelevantStats_response.
    destruct response as [| text |];
      [intros [= <-]; reflexivity | | intros [= <-]; reflexivity].
    destruct (negb (truthy (trim text))); [discriminate |].
    destruct (parse (trim text)) as [v |]; [| intros [= <-]; reflexivity].
    destruct v; simpl; discriminate. }
  destruct (findRelevantStats_response parse response) as [[| item items] | m]
    eqn:Hr; simpl; rewrite ?Hload, ?Herr; auto.
  rewrite (Hmsg m eq_refl). simpl. auto.
Qed.

Lemma search_round_witness :
  always (fun '(s1, _) =>
            activeView s1 = AISearching /\
            isSearching (handleAiSearch_settle noParser Rejected s1) = false /\
            match findRelevantStats_response noParser Rejected with
            | Thrown _ =>
                activeView (handleAiSearch_settle noParser Rejected s1) = AIError /\
                aiError (handleAiSearch_settle noParser Rejected s1) =
                Some searchFailure /\
                aiResults (handleAiSearch_settle noParser Rejected s1) = []
            | Returned [] =>
                activeView (handleAiSearch_settle noParser Rejected s1) = Browse
            | Returned (item :: items) =>
                activeView (handleAiSearch_settle noParser Rejected s1) = AIResults /\
                aiResults (handleAiSearch_settle noParser Rejected s1) = item :: items
            end)
    (step noParser typedState AiSearch).
Proof.
  apply (search_round noParser typedState Rejected); reflexivity.
Defined.

(** X13.  Clearing the AI search, with the data loaded and no search in
    flight, shows the browse view with an empty query and no summary; the
    dataset, the filters, the term, the rows shown and the detail overlay
    are as they were. *)
Theorem clear_returns_to_browse (s : AppState) :
  isDataLoading s = false -> optionTruthy (dataError s) = false ->
  isSearching s = false ->
  activeView (handleClearAiSearch s) = Browse /\
  searchQuery (handleClearAiSearch s) = "" /\
  aiResults (handleClearAiSearch s) = [] /\
  aiError (handleClearAiSearch s) = None /\
  summary (handleClearAiSearch s) = None /\
  summaryError (handleClearAiSearch s) = None /\
  visibleData (handleClearAiSearch s) = visibleData s /\
  allData (handleClearAiSearch s) = allData s /\
  selectedStat (handleClearAiSearch s) = selectedStat s.
Proof.
  intros Hload Herr Hs. unfold activeView, visibleData. simpl.
  rewrite Hload, Herr, Hs. repeat split.
Qed.

Lemma clear_returns_to_browse_witness :
  activeView (handleClearAiSearch typedState) = Browse.
Proof.
  apply (clear_returns_to_browse typedState); reflexivity.
Defined.

(** ** The load *)

(** X14.  The outcome of the load is final.  A failed load shows the data
    error view and leaves the dataset as it was; a load that succeeds from
    the initial state shows the browse view over the loaded records; and no
    event but the answer of the loader changes the loading flag or the
    data error, so the loading and data error views are never left, and
    never come back, through a user's action or the answer of a call. *)
Theorem load_outcome_final (parse : string -> option JSON) (s : AppState)
    (data : list TrendData) (e : Event) :
  (activeView (loadData_settle None s) = DataError /\
   allData (loadData_settle None s) = allData s) /\
  (activeView (loadData_settle (Some data) initialState) = Browse /\
   visibleData (loadData_settle (Some data) initialState) = data) /\
  ((forall fetched, e <> DataSettled fetched) ->
   always (fun '(s', _) =>
             isDataLoading s' = isDataLoading s /\ dataError s' = dataError s /\
             (activeView s = Loading <-> activeView s' = Loading) /\
             (activeView s = DataError <-> activeView s' = DataError))
     (step parse s e)).
Proof.
  split; [split; reflexivity |].
  split.
  { split; [reflexivity |]. unfold visibleData, filteredData. simpl.
    apply filter_nothing. intros r _. reflexivity. }
  intros Hload.
  assert (Hflags : always (fun '(s', _) =>
                     isDataLoading s' = isDataLoading s /\
                     dataError s' = dataError s) (step parse s e)).
  { destruct e; simpl; auto.
    - exfalso. apply (Hload fetched). reflexivity.
    - unfold handleAiSearch_begin.
      destruct (negb (truthy (trim (searchQuery s))) || isSearching s); simpl;
        [auto |].
      eapply always_bind; [apply always_true |].
      intros [data' request] _. simpl. auto.
    - unfold handleAiSearch_settle.
      destruct (findRelevantStats_response parse response); simpl; auto.
    - unfold handleGenerateSummary_begin.
      destruct (length (aiResults s) =? 0)%nat; simpl; [auto |].
      destruct (generateSummary_request (aiResults s)); simpl; auto.
    - unfold handleGenerateSummary_settle.
      destruct (generateSummary_response response); simpl; auto. }
  eapply always_impl; [| exact Hflags].
  intros [s' requests] [Hl He]. split; [exact Hl | split; [exact He |]].
  unfold activeView. rewrite Hl, He.
  destruct (isDataLoading s); [split; split; (reflexivity || discriminate) |].
  destruct (optionTruthy (dataError s));
    [split; split; (reflexivity || discriminate) |].
  destruct (isSearching s), (isSearching s'),
    (optionTruthy (aiError s)), (optionTruthy (aiError s')),
    (0 <? length (aiResults s))%nat, (0 <? length (aiResults s'))%nat;
    split; split; discriminate.
Qed.

Lemma load_outcome_final_witness :
  always (fun '(s', _) =>
            isDataLoading s' = isDataLoading typedState /\
            dataError s' = dataError typedState /\
            (activeView typedState = Loading <-> activeView s' = Loading) /\
            (activeView typedState = DataError <-> activeView s' = DataError))
    (step noParser typedState AiSearch).
Proof.
  apply (load_outcome_final noParser typedState [] AiSearch).
  intros fetched. discriminate.
Defined.

(** ** The summary *)

(** X15.  The replacer takes out the members named [reason] and nothing
    else.  What it writes of a value is what [written] describes, and
    nothing else is: every member of every object but [reason] stays in
    its place, every element of an array stays in its place, a number that
    is not finite is written as [null].  No [reason] and no such number
    is left in what is written; a value that has neither is written as it
    is; and passing a value through the replacer twice gives what one pass
    gives. *)
Theorem withoutReason_only_reason (v w : JSON) :
  (written v w <-> w = withoutReason v) /\
  hasMember "reason" (withoutReason v) = false /\
  allFinite (withoutReason v) = true /\
  (hasMember "reason" v = false -> allFinite v = true -> withoutReason v = v) /\
  withoutReason (withoutReason v) = withoutReason v.
Proof.
  split; [split; [apply written_is_withoutReason |
                  intros ->; apply withoutReason_is_written] |].
  split; [apply withoutReason_clean |].
  split; [apply withoutReason_finite |].
  split; [apply withoutReason_unchanged |].
  apply withoutReason_unchanged;
    [apply withoutReason_clean | apply withoutReason_finite].
Qed.

Lemma withoutReason_only_reason_witness :
  written
    (JArray [JObject [("stat", JString "b"); ("reason", JString "r");
                      ("more", JObject [("reason", JNull);
                                        ("n", JInfinity false);
                                        ("m", JNumber (1 # 2))])];
             JString "reason"])
    (JArray [JObject [("stat", JString "b");
                      ("more", JObject [("n", JNull);
                                        ("m", JNumber (1 # 2))])];
             JString "reason"]).
Proof.
  apply (proj1 (withoutReason_only_reason _ _)). reflexivity.
Defined.

Lemma generateSummary_request_some (data : list JSON) :
  data <> [] ->
  generateSummary_request data =
  Some (summaryRequest (JArray (List.map withoutReason (take 50 data)))).
Proof.
  intros Hne. unfold generateSummary_request.
  destruct data as [|x data]; [contradiction |].
  change (length (x :: data) =? 0)%nat with false. cbv iota.
  destruct (Nat.ltb_spec 50 (length (x :: data))) as [Hlt | Hle]; [reflexivity |].
  rewrite take_ge by exact Hle. reflexivity.
Qed.

Lemma take_map_aiResult (results : list (TrendData * string)) :
  List.map withoutReason
    (take 50 (List.map (fun result => aiResult (fst result) (snd result))
                results)) =
  List.map recordJson (List.map fst (take 50 results)).
Proof.
  change (@take JSON) with (@firstn JSON). rewrite firstn_map.
  apply map_aiResult.
Qed.

(** X16.  A call of [generateSummary] on records, however many (one at
    least): exactly one request goes to the model; it carries the first
    [min 50 n] records, in their order, each as [written] has it, which
    for AI results is the records themselves; the call returns the trimmed
    text of the answer, or throws the fixed message when the model call is
    rejected or the answer carries no text. *)
Theorem generateSummary_call (generateContent : Request -> Response)
    (data : list JSON) :
  data <> [] ->
  exists items,
    fst (generateSummary generateContent data) =
    [summaryRequest (JArray items)] /\
    Forall2 written (take 50 data) items /\
    length items = Nat.min 50 (length data) /\
    take 50 data `prefix_of` data /\
    (forall results,
        data = List.map (fun result => aiResult (fst result) (snd result))
                 results ->
        items = List.map recordJson (List.map fst (take 50 results))) /\
    snd (generateSummary generateContent data) =
    match generateContent (summaryRequest (JArray items)) with
    | Rejected => Thrown summaryFailure
    | FulfilledWithoutText => Thrown summaryFailure
    | Fulfilled text => Returned (trim text)
    end.
Proof.
  intros Hne. unfold generateSummary.
  rewrite (generateSummary_request_some data Hne).
  exists (List.map withoutReason (take 50 data)).
  split; [reflexivity |]. split; [apply map_written |].
  split; [rewrite length_map; apply length_take |].
  split; [exists (drop 50 data); symmetry; apply take_drop |].
  split; [intros results ->; apply take_map_aiResult |].
  simpl. unfold generateSummary_response.
  destruct (generateContent _); reflexivity.
Qed.

Lemma generateSummary_call_witness :
  exists items,
    fst (generateSummary (fun _ => Fulfilled " ok ") fiftyOneResults) =
    [summaryRequest (JArray items)] /\
    items = List.map recordJson (List.map fst (take 50 fiftyOneRecords)) /\
    length items = 50%nat /\
    snd (generateSummary (fun _ => Fulfilled " ok ") fiftyOneResults) =
    Returned "ok" /\
    snd (generateSummary (fun _ => FulfilledWithoutText) fiftyOneResults) =
    Thrown summaryFailure.
Proof.
  destruct (generateSummary_call (fun _ => Fulfilled " ok ") fiftyOneResults)
    as (items & H1 & H2 & H3 & H4 & H5 & H6); [discriminate |].
  exists items. split; [exact H1 |]. split; [apply H5; reflexivity |].
  split; [exact H3 |]. split; [exact H6 |].
  destruct (generateSummary_call (fun _ => FulfilledWithoutText) fiftyOneResults)
    as (items' & _ & _ & _ & _ & _ & H6'); [discriminate |].
  exact H6'.
Defined.

(** X17.  A summary round.  Without AI results the handler does nothing
    and sends nothing.  With AI results it marks the summary as being
    generated, clears the previous summary and error, and sends one request
    built from the AI results, not from the dataset: their first 50, each
    as [written] has it.  When the answer arrives the flag is cleared and
    either the trimmed text is the summary and there is no error, or, the
    call rejected or the answer without text, the fixed message is the
    error and there is no summary. *)
Theorem summary_round (s : AppState) (response : Response) :
  (aiResults s = [] -> handleGenerateSummary_begin s = (s, [])) /\
  (aiResults s <> [] ->
   let s1 := fst (handleGenerateSummary_begin s) in
   let s2 := handleGenerateSummary_settle response s1 in
   (exists items,
       snd (handleGenerateSummary_begin s) = [summaryRequest (JArray items)] /\
       Forall2 written (take 50 (aiResults s)) items /\
       length items = Nat.min 50 (length (aiResults s))) /\
   isSummarizing s1 = true /\ summary s1 = None /\ summaryError s1 = None /\
   aiResults s1 = aiResults s /\ allData s1 = allData s /\
   isSummarizing s2 = false /\
   match response with
   | Rejected => summary s2 = None /\ summaryError s2 = Some summaryFailure
   | FulfilledWithoutText =>
       summary s2 = None /\ summaryError s2 = Some summaryFailure
   | Fulfilled text => summary s2 = Some (trim text) /\ summaryError s2 = None
   end).
Proof.
  unfold handleGenerateSummary_begin. split.
  - intros ->. reflexivity.
  - intros Hne.
    assert ((length (aiResults s) =? 0)%nat = false) as ->
      by (destruct (aiResults s); [contradiction | reflexivity]).
    rewrite (generateSummary_request_some _ Hne). cbv zeta.
    split.
    { exists (List.map withoutReason (take 50 (aiResults s))).
      split; [reflexivity |]. split; [apply map_written |].
      rewrite length_map. apply length_take. }
    repeat split. destruct response; simpl; auto.
Qed.

Lemma summary_round_witness :
  handleGenerateSummary_begin typedState = (typedState, []) /\
  snd (handleGenerateSummary_begin answeredState) =
  [summaryRequest
     (JArray [recordJson phishingRecord;
              recordJson (datedRecord "2023-05-05")])] /\
  isSummarizing (fst (handleGenerateSummary_begin answeredState)) = true /\
  summary (handleGenerateSummary_settle (Fulfilled " Phishing leads. ")
             (fst (handleGenerateSummary_begin answeredState))) =
  Some "Phishing leads." /\
  summaryError (handleGenerateSummary_settle FulfilledWithoutText
                  (fst (handleGenerateSummary_begin answeredState))) =
  Some summaryFailure.
Proof.
  split.
  - apply (summary_round typedState Rejected). reflexivity.
  - destruct (summary_round answeredState (Fulfilled " Phishing leads. "))
      as [_ Hround].
    destruct Hround as ((items & Hsent & Hwritten & _) & Hbusy & _ & _ & _ & _
                        & _ & Hsummary & _); [discriminate |].
    destruct (summary_round answeredState FulfilledWithoutText) as [_ Hround'].
    destruct Hround' as (_ & _ & _ & _ & _ & _ & _ & _ & Herror);
      [discriminate |].
    split; [| split; [exact Hbusy | split; [exact Hsummary | exact Herror]]].
    rewrite Hsent. do 3 f_equal.
    apply Forall2_cons_inv_l in Hwritten as (w1 & l1 & Hw1 & Hwritten & ->).
    apply Forall2_cons_inv_l in Hwritten as (w2 & l2 & Hw2 & Hwritten & ->).
    apply Forall2_nil_inv_l in Hwritten as ->.
    apply written_is_withoutReason in Hw1, Hw2. subst w1 w2. reflexivity.
Defined.

(** X18.  Nothing cancels a pending summary.  When the AI search is
    cleared while a summary is being generated, the flag stays set and the
    answer can still arrive; when it arrives its text is stored as the
    summary although there are no AI results any more, and it is rendered
    whenever it is not empty. *)
Theorem pending_summary_survives_clear (s : AppState) (text : string) :
  isSummarizing s = true ->
  possible (handleClearAiSearch s) (SummarySettled (Fulfilled text)) /\
  aiResults (handleGenerateSummary_settle (Fulfilled text) (handleClearAiSearch s))
  = [] /\
  summary (handleGenerateSummary_settle (Fulfilled text) (handleClearAiSearch s))
  = Some (trim text) /\
  rendersSummary
    (handleGenerateSummary_settle (Fulfilled text) (handleClearAiSearch s))
  = truthy (trim text).
Proof.
  intros Hbusy. unfold rendersSummary. simpl.
  repeat split; [exact Hbusy | apply andb_true_r].
Qed.

Lemma pending_summary_survives_clear_witness :
  summary (handleGenerateSummary_settle (Fulfilled " Trends. ")
             (handleClearAiSearch (setIsSummarizing true resultsState)))
  = Some "Trends.".
Proof.
  apply (pending_summary_survives_clear (setIsSummarizing true resultsState)
           " Trends. ").
  reflexivity.
Defined.

(** ** An accepted submission *)

(** X19.  An accepted submission (query not blank, no search in flight)
    discards at once what the previous search left: the results, the
    error, the summary and the summary error are cleared and the detail
    overlay is closed before any answer arrives.  It sends exactly one
    request, which carries the query as it was typed, not trimmed, and
    [min 200 n] records of the dataset; the query and the filters stay as
    they were. *)
Theorem accepted_submission (parse : string -> option JSON) (s : AppState) :
  allWhiteSpace (searchQuery s) = false -> isSearching s = false ->
  always (fun '(s', requests) =>
            (isSearching s' = true /\ aiResults s' = [] /\ aiError s' = None /\
             summary s' = None /\ summaryError s' = None /\
             selectedStat s' = None) /\
            (searchQuery s' = searchQuery s /\
             selectedTopics s' = selectedTopics s /\
             selectedCompanies s' = selectedCompanies s /\
             selectedDates s' = selectedDates s /\
             searchTerm s' = searchTerm s) /\
            exists sample,
              requests =
              [{| model := "gemini-2.5-flash";
                  contents := SearchPrompt (searchQuery s) sample;
                  structuredResponse := true |}] /\
              sample ⊆+ allData s /\
              length sample = Nat.min 200 (length (allData s)))
    (step parse s AiSearch).
Proof.
  intros Hq Hs. simpl. unfold handleAiSearch_begin.
  rewrite truthy_trim, Hq, Hs. simpl.
  unfold findRelevantStats_request.
  apply always_bind
    with (P := fun p : list TrendData * Request =>
                 exists sample,
                   snd p = {| model := "gemini-2.5-flash";
                              contents := SearchPrompt (searchQuery s) sample;
                              structuredResponse := true |} /\
                   sample ⊆+ allData s /\
                   length sample = Nat.min 200 (length (allData s))).
  - apply always_bind
      with (P := fun p : list TrendData * list TrendData =>
                   snd p ⊆+ allData s /\
                   length (snd p) = Nat.min 200 (length (allData s))).
    + destruct (Nat.le_gt_cases (length (allData s)) 200) as [Hle | Hgt].
      * rewrite selectSubset_small by exact Hle. cbn [always snd].
        split; [reflexivity | lia].
      * eapply always_impl; [| apply selectSubset_large; exact Hgt].
        intros [data' dataSubset] [Hperm ->]. cbn [snd]. split.
        -- rewrite <- Hperm. apply sublist_submseteq, sublist_take.
        -- rewrite length_take, Hperm. reflexivity.
    + intros [data' dataSubset] [Hsub Hlen]. cbn [always snd] in *. eauto.
  - intros [data' request] (sample & Hreq & Hsub & Hlen).
    cbn [always snd] in *. subst request.
    split; [repeat split |]. split; [repeat split |]. eauto.
Qed.

Lemma accepted_submission_witness :
  always (fun '(s', requests) =>
            (isSearching s' = true /\ aiResults s' = [] /\ aiError s' = None /\
             summary s' = None /\ summaryError s' = None /\
             selectedStat s' = None) /\
            (searchQuery s' = searchQuery typedState /\
             selectedTopics s' = selectedTopics typedState /\
             selectedCompanies s' = selectedCompanies typedState /\
             selectedDates s' = selectedDates typedState /\
             searchTerm s' = searchTerm typedState) /\
            exists sample,
              requests =
              [{| model := "gemini-2.5-flash";
                  contents := SearchPrompt (searchQuery typedState) sample;
                  structuredResponse := true |}] /\
              sample ⊆+ allData typedState /\
              length sample = Nat.min 200 (length (allData typedState)))
    (step noParser typedState AiSearch).
Proof.
  apply (accepted_submission noParser typedState); reflexivity.
Defined.
